(** * Schema validation of graph-cli ([src/validation/schema.js])

    A shallow embedding of the subgraph schema validator and the
    properties of it that the specification states.

    The validator is JavaScript: a property read on [undefined] raises a
    [TypeError] and a read of an undeclared identifier raises a
    [ReferenceError].  Functions that can raise return in the [result]
    monad; the others are plain functions.  The immutable.js [List] of
    diagnostics is a Rocq list, the immutable.js [Set] is a [gset]. *)

From Stdlib Require Import Ascii String.
From stdpp Require Import base option list strings gmap.

Local Open Scope string_scope.
Local Open Scope list_scope.
Local Open Scope nat_scope.

(** ** JavaScript exceptions *)

Inductive JsError :=
| ReferenceError (ident : string)   (* `ident is not defined` *)
| TypeError (prop : string).        (* `Cannot read properties of undefined (reading 'prop')` *)

Inductive result (A : Type) :=
| Ok (a : A)
| Throw (e : JsError).
Arguments Ok {A} a.
Arguments Throw {A} e.

#[global] Instance result_ret : MRet result := fun A a => Ok a.
#[global] Instance result_bind : MBind result := fun A B f m =>
  match m with
  | Ok a => f a
  | Throw e => Throw e
  end.

Definition throws {A} (r : result A) : Prop := ∃ e, r = Throw e.

(** [xs.reduce((acc, x) => f(acc, x), init)] where [f] may raise: the
    exception leaves the loop. *)
Definition reduce {A B} (f : B → A → result B) (xs : list A) (init : B) : result B :=
  fold_left (fun acc x => b ← acc; f b x) xs (Ok init).

(** [xs.map(f)] where [f] may raise. *)
Fixpoint mapR {A B} (f : A → result B) (xs : list A) : result (list B) :=
  match xs with
  | [] => Ok []
  | x :: xs' => y ← f x; ys ← mapR f xs'; Ok (y :: ys)
  end.

(** ** The syntax tree of graphql/language, as far as the validator reads it *)

Record Loc := { loc_start : nat; loc_end : nat }.

Record Name := { n_loc : Loc; n_value : string }.

(** Values of directive arguments (constant values: no variables). *)
#[warnings="-register-all"]
Inductive Value :=
| StringValue (value : string)
| IntValue (value : string)
| FloatValue (value : string)
| EnumValue (value : string)
| BooleanValue (value : bool)
| NullValue
| ListValue (values : list Value)
| ObjectValue (fields : list (Name * Value)).

Record Argument := { a_name : Name; a_value : Value }.

Record Directive := {
  dir_loc : Loc;
  dir_name : Name;
  dir_arguments : list Argument }.

Inductive GType :=
| NamedType (name : Name)
| ListType (type : GType)
| NonNullType (type : GType).

Record InputValueDefinition := { iv_name : Name; iv_type : GType }.

Record FieldDefinition := {
  f_loc : Loc;
  f_name : Name;
  f_arguments : list InputValueDefinition;
  f_type : GType;
  f_directives : list Directive }.

Inductive DefKind :=
| ObjectTypeDefinition
| ObjectTypeExtension
| EnumTypeDefinition
| InterfaceTypeDefinition
| ScalarTypeDefinition
| UnionTypeDefinition
| InputObjectTypeDefinition
| DirectiveDefinition.

(** The validator reads [name], [fields] and [directives] only of the
    kinds that have them. *)
Record TypeDef := {
  def_kind : DefKind;
  def_loc : Loc;
  def_name : Name;
  def_fields : list FieldDefinition;
  def_directives : list Directive }.

(** ** JavaScript values that can end up in the list of type names *)

Inductive JsVal :=
| JsStr (s : string)
| JsBool (b : bool)
| JsUndefined.

#[global] Instance JsVal_eq_dec : EqDecision JsVal.
Proof. solve_decision. Defined.

#[global] Instance JsVal_countable : Countable JsVal.
Proof.
  refine (inj_countable'
    (fun v => match v with
              | JsStr s => inl s
              | JsBool b => inr (Some b)
              | JsUndefined => inr None
              end)
    (fun x => match x with
              | inl s => JsStr s
              | inr (Some b) => JsBool b
              | inr None => JsUndefined
              end) _).
  by intros [].
Defined.

(** Truthiness, [v ? _ : _]. *)
Definition truthy (v : JsVal) : bool :=
  match v with
  | JsStr s => negb (String.eqb s "")
  | JsBool b => b
  | JsUndefined => false
  end.

(** String conversion inside a template literal, [`${v}`]. *)
Definition toString (v : JsVal) : string :=
  match v with
  | JsStr s => s
  | JsBool true => "true"
  | JsBool false => "false"
  | JsUndefined => "undefined"
  end.

(** ** Diagnostics *)

Record Diagnostic := { loc : Loc; entity : JsVal; message : string }.

Definition nl : string := String (ascii_of_nat 10) EmptyString.
Definition dq : string := String (ascii_of_nat 34) EmptyString.

(** [s1 === s2] on strings. *)
Definition seq (s1 s2 : string) : bool := String.eqb s1 s2.

(** ** Node accessors that raise on a missing property *)

Inductive TypeKind := KNamedType | KListType | KNonNullType.

#[global] Instance TypeKind_eq_dec : EqDecision TypeKind.
Proof. solve_decision. Defined.

Definition kind (t : GType) : TypeKind :=
  match t with
  | NamedType _ => KNamedType
  | ListType _ => KListType
  | NonNullType _ => KNonNullType
  end.

(** [t.type.kind]: a named type has no [type] property. *)
Definition type_kind (t : GType) : result TypeKind :=
  match t with
  | NamedType _ => Throw (TypeError "kind")
  | ListType t' | NonNullType t' => Ok (kind t')
  end.

(** [t.name.value]: only a named type has a [name]. *)
Definition name_value (t : GType) : result string :=
  match t with
  | NamedType name => Ok (n_value name)
  | ListType _ | NonNullType _ => Throw (TypeError "value")
  end.

(** [t.type.name.value] *)
Definition type_name_value (t : GType) : result string :=
  match t with
  | NamedType _ => Throw (TypeError "name")
  | ListType t' | NonNullType t' => name_value t'
  end.

(** ** Builtin scalar types and suggestions *)

Definition BUILTIN_SCALAR_TYPES : list string :=
  ["Boolean"; "Int"; "BigDecimal"; "String"; "BigInt"; "Bytes"; "ID"].

(** A regular expression of the table: [/^(a|b|..)(c|d|..)$/], a sequence
    of groups of alternatives between the two anchors. *)
Definition RegExp := list (list string).

Fixpoint strip_prefix (p s : string) : option string :=
  match p, s with
  | EmptyString, _ => Some s
  | String a p', String b s' => if Ascii.eqb a b then strip_prefix p' s' else None
  | String _ _, EmptyString => None
  end.

Fixpoint regexp_match (re : RegExp) (s : string) : bool :=
  match re with
  | [] => seq s ""
  | alts :: re' =>
      existsb (fun alt => match strip_prefix alt s with
                          | Some s' => regexp_match re' s'
                          | None => false
                          end) alts
  end.

Inductive Pattern :=
| PString (s : string)
| PRegExp (re : RegExp).

Definition TYPE_SUGGESTIONS : list (Pattern * string) :=
  [ (PString "Address", "Bytes");
    (PString "address", "Bytes");
    (PString "bytes", "Bytes");
    (PString "string", "String");
    (PString "bool", "Boolean");
    (PString "boolean", "Boolean");
    (PString "Bool", "Boolean");
    (PString "float", "BigDecimal");
    (PString "Float", "BigDecimal");
    (PString "int", "Int");
    (PString "uint", "BigInt");
    (PRegExp [["u"; "uint"]; ["8"; "16"; "24"]], "Int");
    (PRegExp [["i"; "int"]; ["8"; "16"; "24"; "32"]], "Int");
    (PRegExp [["u"; "uint"]; ["32"]], "BigInt");
    (PRegExp [["u"; "uint"; "i"; "int"];
              ["40"; "48"; "56"; "64"; "72"; "80"; "88"; "96"; "104"; "112";
               "120"; "128"; "136"; "144"; "152"; "160"; "168"; "176"; "184";
               "192"; "200"; "208"; "216"; "224"; "232"; "240"; "248"; "256"]],
     "BigInt") ].

Definition RESERVED_TYPE : string := "_Schema_".

Definition typeSuggestion (typeName : string) : option string :=
  head (map (fun '(_, suggestion) => suggestion)
    (List.filter (fun '(pattern, _) =>
                    match pattern with
                    | PString p => seq p typeName
                    | PRegExp re => regexp_match re typeName
                    end)
                 TYPE_SUGGESTIONS)).

(** ** Type unwrapping *)

(** [innerTypeFromList] and [innerTypeFromNonNull] take the wrapper node
    in the source and look at its [type]; here they take that [type]. *)
Fixpoint innerTypeFromList (type : GType) : GType :=
  match type with
  | NonNullType type' => innerTypeFromNonNull type'
  | _ => type
  end
with innerTypeFromNonNull (type : GType) : GType :=
  match type with
  | ListType type' => innerTypeFromList type'
  | _ => type
  end.

Definition unwrapType (type : GType) : GType :=
  match type with
  | NonNullType type' => innerTypeFromNonNull type'
  | ListType type' => innerTypeFromList type'
  | NamedType _ => type
  end.

(** ** Checks on an entity type *)

#[global] Instance DefKind_eq_dec : EqDecision DefKind.
Proof. solve_decision. Defined.

(** [x ? _ : _] on the result of [find]: found or [undefined]. *)
Definition found {A} (o : option A) : bool :=
  match o with
  | Some _ => true
  | None => false
  end.

Definition validateEntityDirective (def : TypeDef) : list Diagnostic :=
  if found (List.find (fun directive => seq (n_value (dir_name directive)) "entity")
                      (def_directives def))
  then []
  else [ {| loc := def_loc def;
            entity := JsStr (n_value (def_name def));
            message := "Defined without @entity directive" |} ].

Definition validateEntityID (def : TypeDef) : list Diagnostic :=
  match List.find (fun field => seq (n_value (f_name field)) "id") (def_fields def) with
  | None =>
      [ {| loc := def_loc def;
           entity := JsStr (n_value (def_name def));
           message := "Missing field: id: ID!" |} ]
  | Some idField =>
      if match f_type idField with
         | NonNullType (NamedType name) => seq (n_value name) "ID"
         | _ => false
         end
      then []
      else [ {| loc := f_loc idField;
                entity := JsStr (n_value (def_name def));
                message := "Field 'id': Entity IDs must be of type ID!" |} ]
  end.

(** [a && b] where [b] may raise and is not evaluated when [a] is false. *)
Definition and_then (a : bool) (b : result bool) : result bool :=
  if a then b else Ok false.

Definition validateListFieldType (def : TypeDef) (field : FieldDefinition)
  : result (list Diagnostic) :=
  let type := f_type field in
  c1 ← and_then (bool_decide (kind type = KNonNullType))
         (and_then (bool_decide (kind type = KListType))
            (k ← type_kind type; Ok (negb (bool_decide (k = KNonNullType)))));
  if c1 : bool then
    elem ← type_name_value type;
    Ok [ {| loc := f_loc field;
            entity := JsStr (n_value (def_name def));
            message :=
              "Field '" +:+ n_value (f_name field) +:+ "':" +:+ nl +:+
              "Field has type [" +:+ elem +:+ "]! but" +:+ nl +:+
              "must have type [" +:+ elem +:+ "!]!" +:+ nl +:+
              nl +:+
              "Reason: Lists with null elements are not supported." |} ]
  else
    c2 ← and_then (bool_decide (kind type = KListType))
           (k ← type_kind type; Ok (negb (bool_decide (k = KNonNullType))));
    if c2 : bool then
      elem ← type_name_value type;
      Ok [ {| loc := f_loc field;
              entity := JsStr (n_value (def_name def));
              message :=
                "Field '" +:+ n_value (f_name field) +:+ "':" +:+ nl +:+
                "Field has type [" +:+ elem +:+ "] but" +:+ nl +:+
                "must have type [" +:+ elem +:+ "!]" +:+ nl +:+
                nl +:+
                "Reason: Lists with null elements are not supported." |} ]
    else Ok [].

(** ** Gathering the type names *)

Definition gatherLocalTypes (defs : list TypeDef) : list string :=
  map (fun def => n_value (def_name def))
    (List.filter
       (fun def =>
          bool_decide (def_kind def = ObjectTypeDefinition) ||
          bool_decide (def_kind def = EnumTypeDefinition) ||
          bool_decide (def_kind def = InterfaceTypeDefinition))
       defs).

Definition isStringValue (v : Value) : bool :=
  match v with
  | StringValue _ => true
  | _ => false
  end.

Definition isListValue (v : Value) : bool :=
  match v with
  | ListValue _ => true
  | _ => false
  end.

(** [v.value]: the scalar kinds carry one, the others have [undefined]. *)
Definition value_value (v : Value) : JsVal :=
  match v with
  | StringValue s | IntValue s | FloatValue s | EnumValue s => JsStr s
  | BooleanValue b => JsBool b
  | NullValue | ListValue _ | ObjectValue _ => JsUndefined
  end.

(** [v.values.map(f)]: only a list value has [values]. *)
Definition values_map {B} (v : Value) (f : Value → result B) : result (list B) :=
  match v with
  | ListValue values => mapR f values
  | _ => Throw (TypeError "map")
  end.

(** The directive is an [@import] with an argument named [types]
    (written out twice in [gatherImportedTypes]). *)
Definition importWithTypes (directive : Directive) : bool :=
  seq (n_value (dir_name directive)) "import" &&
  found (List.find (fun argument => seq (n_value (a_name argument)) "types")
                   (dir_arguments directive)).

(** The name one element of [types] imports: the string itself, or the
    [as] field of an object. *)
Definition importedTypeName (type : Value) : result JsVal :=
  match type with
  | StringValue value => Ok (JsStr value)
  | ObjectValue fields =>
      if found (List.find (fun field : Name * Value =>
                             seq (n_value field.1) "as" && isStringValue field.2)
                          fields)
      then match List.find (fun field : Name * Value => seq (n_value field.1) "as")
                           fields with
           | Some field => Ok (value_value field.2)
           | None => Throw (TypeError "value")
           end
      else Ok JsUndefined
  | _ => Ok JsUndefined
  end.

Definition gatherImportedTypes (defs : list TypeDef) : result (list JsVal) :=
  per_def ←
    mapR (fun def =>
            mapR (fun arg : option Argument =>
                    match arg with
                    | Some arg => values_map (a_value arg) importedTypeName
                    | None => Throw (TypeError "value")
                    end)
                 (map (fun imp =>
                         List.find (fun argument =>
                                      seq (n_value (a_name argument)) "types" &&
                                      isListValue (a_value argument))
                                   (dir_arguments imp))
                      (List.filter importWithTypes (def_directives def))))
         (List.filter
            (fun def =>
               bool_decide (def_kind def = ObjectTypeDefinition) &&
               seq (n_value (def_name def)) RESERVED_TYPE &&
               found (List.find importWithTypes (def_directives def)))
            defs);
  Ok (fold_left
        (fun flattened types_args =>
           flattened ++
           fold_left (fun flattened types_arg => flattened ++ List.filter truthy types_arg)
                     types_args [])
        per_def []).

Definition entityTypeByName (defs : list TypeDef) (name : string) : option TypeDef :=
  List.find (fun def => seq (n_value (def_name def)) name)
    (List.filter
       (fun def =>
          found (List.find (fun directive => seq (n_value (dir_name directive)) "entity")
                           (def_directives def)))
       (List.filter
          (fun def =>
             bool_decide (def_kind def = InterfaceTypeDefinition) ||
             bool_decide (def_kind def = ObjectTypeDefinition))
          defs)).

Definition fieldTargetEntityName (field : FieldDefinition) : result string :=
  name_value (unwrapType (f_type field)).

Definition fieldTargetEntity (defs : list TypeDef) (field : FieldDefinition)
  : result (option TypeDef) :=
  name ← fieldTargetEntityName field;
  Ok (entityTypeByName defs name).

(** ** Checks on a field of an entity type *)

Definition validateInnerFieldType (defs : list TypeDef) (def : TypeDef)
    (field : FieldDefinition) : result (list Diagnostic) :=
  let innerType := unwrapType (f_type field) in
  typeName ← name_value innerType;
  let suggestion := typeSuggestion typeName in
  imported ← gatherImportedTypes defs;
  let availableTypes :=
    map JsStr BUILTIN_SCALAR_TYPES ++ map JsStr (gatherLocalTypes defs) ++ imported in
  if bool_decide (JsStr typeName ∈ availableTypes)
  then Ok []
  else Ok [ {| loc := f_loc field;
               entity := JsStr (n_value (def_name def));
               message :=
                 "Field '" +:+ n_value (f_name field) +:+ "': " +:+
                 "Unknown type '" +:+ typeName +:+ "'." +:+
                 match suggestion with
                 | Some suggestion => " Did you mean '" +:+ suggestion +:+ "'?"
                 | None => ""
                 end |} ].

Definition validateEntityFieldType (defs : list TypeDef) (def : TypeDef)
    (field : FieldDefinition) : result (list Diagnostic) :=
  e1 ← validateListFieldType def field;
  e2 ← validateInnerFieldType defs def field;
  Ok (e1 ++ e2).

Definition validateEntityFieldArguments (defs : list TypeDef) (def : TypeDef)
    (field : FieldDefinition) : list Diagnostic :=
  if Nat.ltb 0 (List.length (f_arguments field))
  then [ {| loc := f_loc field;
            entity := JsStr (n_value (def_name def));
            message :=
              "Field '" +:+ n_value (f_name field) +:+ "': " +:+
              "Field arguments are not supported." |} ]
  else [].

Definition entityFieldExists (entityDef : TypeDef) (name : string) : bool :=
  found (List.find (fun field => seq (n_value (f_name field)) name) (def_fields entityDef)).

(** [directive.arguments.length !== 1 || directive.arguments[0].name.value !== 'field']
    is the first test; past it the list is [[argument]] and
    [directive.arguments[0]] is that argument. *)
Definition validateDerivedFromDirective (defs : list TypeDef) (def : TypeDef)
    (field : FieldDefinition) (directive : Directive) : result (list Diagnostic) :=
  let no_field_argument :=
    [ {| loc := dir_loc directive;
         entity := JsStr (n_value (def_name def));
         message :=
           "Field '" +:+ n_value (f_name field) +:+ "': " +:+
           "@derivedFrom directive must have a 'field' argument" |} ] in
  match dir_arguments directive with
  | [argument] =>
      if negb (seq (n_value (a_name argument)) "field") then Ok no_field_argument
      else if negb (isStringValue (a_value argument)) then
        Ok [ {| loc := dir_loc directive;
                entity := JsStr (n_value (def_name def));
                message :=
                  "Field '" +:+ n_value (f_name field) +:+ "': " +:+
                  "Value of the @derivedFrom 'field' argument must be a string" |} ]
      else
        targetEntity ← fieldTargetEntity defs field;
        match targetEntity with
        | None => Ok []
        | Some targetEntity =>
            match List.find
                    (fun field =>
                       bool_decide (JsStr (n_value (f_name field)) =
                                    value_value (a_value argument)))
                    (def_fields targetEntity) with
            | None =>
                Ok [ {| loc := dir_loc directive;
                        entity := JsStr (n_value (def_name def));
                        message :=
                          "Field '" +:+ n_value (f_name field) +:+ "': " +:+
                          "@derivedFrom field '" +:+
                          toString (value_value (a_value argument)) +:+ "' " +:+
                          "does not exist on type '" +:+
                          n_value (def_name targetEntity) +:+ "'" |} ]
            | Some derivedFromField =>
                let backrefTypeName := unwrapType (f_type derivedFromField) in
                backrefName ← name_value backrefTypeName;
                let backRefEntity := entityTypeByName defs backrefName in
                if match backRefEntity with
                   | None => true
                   | Some backRefEntity =>
                       negb (seq (n_value (def_name backRefEntity)) (n_value (def_name def)))
                   end
                then
                  Ok [ {| loc := dir_loc directive;
                          entity := JsStr (n_value (def_name def));
                          message :=
                            "Field '" +:+ n_value (f_name field) +:+ "': " +:+
                            "@derivedFrom field '" +:+
                            toString (value_value (a_value argument)) +:+ "' " +:+
                            "on type '" +:+ n_value (def_name targetEntity) +:+
                            "' must have the type " +:+
                            "'" +:+ n_value (def_name def) +:+ "', '" +:+
                            n_value (def_name def) +:+ "!' or '[" +:+
                            n_value (def_name def) +:+ "!]!'" |} ]
                else Ok []
            end
        end
  | _ => Ok no_field_argument
  end.

Definition validateEntityFieldDirective (defs : list TypeDef) (def : TypeDef)
    (field : FieldDefinition) (directive : Directive) : result (list Diagnostic) :=
  if seq (n_value (dir_name directive)) "derivedFrom"
  then validateDerivedFromDirective defs def field directive
  else Ok [].

Definition validateEntityFieldDirectives (defs : list TypeDef) (def : TypeDef)
    (field : FieldDefinition) : result (list Diagnostic) :=
  reduce (fun errors directive =>
            e ← validateEntityFieldDirective defs def field directive;
            Ok (errors ++ e))
         (f_directives field) [].

Definition validateEntityFields (defs : list TypeDef) (def : TypeDef)
  : result (list Diagnostic) :=
  reduce (fun errors field =>
            e1 ← validateEntityFieldType defs def field;
            let e2 := validateEntityFieldArguments defs def field in
            e3 ← validateEntityFieldDirectives defs def field;
            Ok (((errors ++ e1) ++ e2) ++ e3))
         (def_fields def) [].

Definition validateNoImportDirective (def : TypeDef) : list Diagnostic :=
  if found (List.find (fun directive => seq (n_value (dir_name directive)) "import")
                      (def_directives def))
  then [ {| loc := n_loc (def_name def);
            entity := JsStr (n_value (def_name def));
            message := "@import directive only allowed on '" +:+ RESERVED_TYPE +:+ "' type" |} ]
  else [].

(** ** Checks on the [@import] directives of the reserved type *)

Definition import_shape_message : string :=
  "Import must be one of " +:+ dq +:+ "Name" +:+ dq +:+ " or { name: " +:+
  dq +:+ "Name" +:+ dq +:+ ", as: " +:+ dq +:+ "Alias" +:+ dq +:+ " }".

(** [importDirectiveTypeValidators] is a table indexed by the kind of the
    value: [StringValue] and [ObjectValue] have an entry. *)
Definition validateImportDirectiveType (def : TypeDef) (directive : Directive)
    (type : Value) : list Diagnostic :=
  match type with
  | StringValue _ => []
  | ObjectValue fields =>
      if negb (Nat.eqb (List.length fields) 2)
      then [ {| loc := n_loc (dir_name directive);
                entity := JsStr (n_value (def_name def));
                message := import_shape_message |} ]
      else
        fold_left
          (fun errors (field : Name * Value) =>
             if negb (bool_decide (n_value field.1 ∈ ["name"; "as"]))
             then errors ++
                  [ {| loc := n_loc (dir_name directive);
                       entity := JsStr (n_value (def_name def));
                       message := "@import field '" +:+ n_value field.1 +:+
                                  "' invalid, may only be one of: [name, as]" |} ]
             else if negb (isStringValue field.2)
             then errors ++
                  [ {| loc := n_loc (dir_name directive);
                       entity := JsStr (n_value (def_name def));
                       message := "@import fields [name, as] must be strings" |} ]
             else errors)
          fields []
  | _ =>
      [ {| loc := n_loc (dir_name directive);
           entity := JsStr (n_value (def_name def));
           message := import_shape_message |} ]
  end.

Definition validateImportDirectiveArgumentTypes (def : TypeDef) (directive : Directive)
    (argument : Argument) : list Diagnostic :=
  match a_value argument with
  | ListValue values =>
      fold_left (fun errors type => errors ++ validateImportDirectiveType def directive type)
                values []
  | _ =>
      [ {| loc := n_loc (dir_name directive);
           entity := JsStr (n_value (def_name def));
           message := "@import argument 'types' must be an list" |} ]
  end.

Definition validateImportDirectiveArgumentFrom (def : TypeDef) (directive : Directive)
    (argument : Argument) : list Diagnostic :=
  match a_value argument with
  | ObjectValue fields =>
      if negb (Nat.eqb (List.length fields) 1)
      then [ {| loc := n_loc (dir_name directive);
                entity := JsStr (n_value (def_name def));
                message := "@import argument 'from' must have an 'id' or 'name' field" |} ]
      else
        fold_left
          (fun errors (field : Name * Value) =>
             if negb (bool_decide (n_value field.1 ∈ ["name"; "id"]))
             then errors ++
                  [ {| loc := n_loc field.1;
                       entity := JsStr (n_value (def_name def));
                       message := "@import argument 'from' must be one of { name: " +:+
                                  dq +:+ "Name" +:+ dq +:+ " } or { id: " +:+
                                  dq +:+ "ID" +:+ dq +:+ " }" |} ]
             else if negb (isStringValue field.2)
             then errors ++
                  [ {| loc := n_loc field.1;
                       entity := JsStr (n_value (def_name def));
                       message := "@import argument 'from' must be one of { name: " +:+
                                  dq +:+ "Name" +:+ dq +:+ " } or { id: " +:+
                                  dq +:+ "ID" +:+ dq +:+ " } with string values" |} ]
             else errors)
          fields []
  | _ =>
      [ {| loc := n_loc (dir_name directive);
           entity := JsStr (n_value (def_name def));
           message := "@import argument 'from' must be an object" |} ]
  end.

Definition validateImportDirectiveTypes (def : TypeDef) (directive : Directive)
  : list Diagnostic :=
  match List.find (fun argument => seq (n_value (a_name argument)) "types")
                  (dir_arguments directive) with
  | Some types => validateImportDirectiveArgumentTypes def directive types
  | None =>
      [ {| loc := n_loc (dir_name directive);
           entity := JsStr (n_value (def_name def));
           message := "@import argument 'types' must be specified" |} ]
  end.

Definition validateImportDirectiveFrom (def : TypeDef) (directive : Directive)
  : list Diagnostic :=
  match List.find (fun argument => seq (n_value (a_name argument)) "from")
                  (dir_arguments directive) with
  | Some from => validateImportDirectiveArgumentFrom def directive from
  | None =>
      [ {| loc := n_loc (dir_name directive);
           entity := JsStr (n_value (def_name def));
           message := "@import argument 'from' must be specified" |} ]
  end.

(** The diagnostic of the source reads [def.name.value], but [def] is
    neither a parameter of this function nor a binding of the module:
    building the diagnostic raises a [ReferenceError]. *)
Definition validateImportDirectiveName (directive : Directive) : result (list Diagnostic) :=
  if negb (seq (n_value (dir_name directive)) "import")
  then Throw (ReferenceError "def")
  else Ok [].

Definition validateImportDirective (def : TypeDef) (directive : Directive)
  : result (list Diagnostic) :=
  e1 ← validateImportDirectiveName directive;
  Ok (e1 ++ validateImportDirectiveTypes def directive
         ++ validateImportDirectiveFrom def directive).

Definition validateSubgraphSchemaDirectives (def : TypeDef) : result (list Diagnostic) :=
  reduce (fun errors directive =>
            e ← validateImportDirective def directive;
            Ok (errors ++ e))
         (def_directives def) [].

Definition validateTypeHasNoFields (def : TypeDef) : list Diagnostic :=
  if negb (Nat.eqb (List.length (def_fields def)) 0)
  then [ {| loc := n_loc (def_name def);
            entity := JsStr (n_value (def_name def));
            message := n_value (def_name def) +:+
                       " type is not allowed any fields by convention" |} ]
  else [].

Definition validateAtLeastOneExtensionField (def : TypeDef) : list Diagnostic := [].

(** ** Type definitions, naming collisions and the whole schema *)

(** [typeDefinitionValidators] is a table indexed by the kind of the
    definition: [ObjectTypeDefinition] and [ObjectTypeExtension] have an
    entry. *)
Definition validateTypeDefinition (defs : list TypeDef) (def : TypeDef)
  : result (list Diagnostic) :=
  match def_kind def with
  | ObjectTypeDefinition =>
      if seq (n_value (def_name def)) RESERVED_TYPE
      then
        e1 ← validateSubgraphSchemaDirectives def;
        Ok (e1 ++ validateTypeHasNoFields def)
      else
        let e1 := validateEntityDirective def in
        let e2 := validateEntityID def in
        e3 ← validateEntityFields defs def;
        Ok (e1 ++ e2 ++ e3 ++ validateNoImportDirective def)
  | ObjectTypeExtension => Ok (validateAtLeastOneExtensionField def)
  | _ => Ok []
  end.

Definition validateTypeDefinitions (defs : list TypeDef) : result (list Diagnostic) :=
  reduce (fun errors def =>
            e ← validateTypeDefinition defs def;
            Ok (errors ++ e))
         defs [].

Definition collision (type : JsVal) : Diagnostic :=
  {| loc := {| loc_start := 1; loc_end := 1 |};
     entity := type;
     message := "Type '" +:+ toString type +:+ "' is defined more than once" |}.

(** The variables the loop of [validateNamingCollisionsInTypes] updates. *)
Record Collisions := {
  errors : list Diagnostic;
  seen : gset JsVal;
  conflicting : gset JsVal }.

Definition collisions_step (st : Collisions) (type : JsVal) : Collisions :=
  if bool_decide (type ∈ seen st) && negb (bool_decide (type ∈ conflicting st))
  then {| errors := errors st ++ [collision type];
          seen := seen st;
          conflicting := {[type]} ∪ conflicting st |}
  else {| errors := errors st;
          seen := {[type]} ∪ seen st;
          conflicting := conflicting st |}.

Definition validateNamingCollisionsInTypes (types : list JsVal) : list Diagnostic :=
  errors (fold_left collisions_step types
            {| errors := []; seen := ∅; conflicting := ∅ |}).

Definition validateNamingCollisions (local : list string) (imported : list JsVal)
  : list Diagnostic :=
  validateNamingCollisionsInTypes (map JsStr local ++ imported).

(** [validateSchema] after [loadSchema] and [parseSchema]: the argument is
    [schema.definitions]. *)
Definition validateSchema (definitions : list TypeDef) : result (list Diagnostic) :=
  e1 ← validateTypeDefinitions definitions;
  imported ← gatherImportedTypes definitions;
  Ok (e1 ++ validateNamingCollisions (gatherLocalTypes definitions) imported).

(** * Notions the properties are stated with *)

(** ** Type expressions *)

(** No wrapper sits directly inside a wrapper of its own kind. *)
Fixpoint alternating (t : GType) : bool :=
  match t with
  | NamedType _ => true
  | ListType t' => negb (bool_decide (kind t' = KListType)) && alternating t'
  | NonNullType t' => negb (bool_decide (kind t' = KNonNullType)) && alternating t'
  end.

(** The named type a type expression is built from. *)
Fixpoint innermost (t : GType) : Name :=
  match t with
  | NamedType name => name
  | ListType t' | NonNullType t' => innermost t'
  end.

(** ** Entity types and the resolution of a name *)

(** [def] is an entity type: an interface or object type definition with
    an [@entity] directive. *)
Definition is_entity (def : TypeDef) : Prop :=
  (def_kind def = InterfaceTypeDefinition ∨ def_kind def = ObjectTypeDefinition) ∧
  ∃ directive, In directive (def_directives def) ∧
               n_value (dir_name directive) = "entity".

(** [name] resolves to [T]: [T] is the first entity type of the schema
    that has this name. *)
Definition resolves_to (defs : list TypeDef) (name : string) (T : TypeDef) : Prop :=
  ∃ before after,
    defs = before ++ T :: after ∧
    is_entity T ∧ n_value (def_name T) = name ∧
    ∀ def, In def before → is_entity def → n_value (def_name def) ≠ name.

(** No entity type of the schema has this name. *)
Definition unresolved (defs : list TypeDef) (name : string) : Prop :=
  ∀ def, In def defs → is_entity def → n_value (def_name def) ≠ name.

(** ** Messages *)

(** The text of a message contains [part]. *)
Definition mentions (text part : string) : Prop :=
  ∃ before after, text = before +:+ part +:+ after.

(** The character [c] occurs in [s]. *)
Definition has_char (c : ascii) (s : string) : Prop :=
  In c (list_ascii_of_string s).

(** ** The loop of the collision check *)

(** How many diagnostics of [ds] have [name] as their entity. *)
Definition reported (name : JsVal) (ds : list Diagnostic) : nat :=
  List.length (List.filter (fun d => bool_decide (entity d = name)) ds).

(** How often [name] occurs among the type names. *)
Definition occurrences (name : JsVal) (types : list JsVal) : nat :=
  count_occ JsVal_eq_dec types name.

(** What the variables of the loop hold once [processed] has been read. *)
Record collisions_inv (processed : list JsVal) (st : Collisions) : Prop := {
  inv_seen : ∀ name, name ∈ seen st ↔ 1 ≤ occurrences name processed;
  inv_conflicting : ∀ name, name ∈ conflicting st ↔ 2 ≤ occurrences name processed;
  inv_errors : ∀ name,
    reported name (errors st) = if decide (2 ≤ occurrences name processed) then 1 else 0;
  inv_shape : Forall (fun d => d = collision (entity d)) (errors st) }.

(** ** Sample nodes, for the instances below *)

Module Sample.
Definition at0 : Loc := {| loc_start := 0; loc_end := 0 |}.
Definition name (s : string) : Name := {| n_loc := at0; n_value := s |}.
Definition named (s : string) : GType := NamedType (name s).
Definition field (n : string) (t : GType) (ds : list Directive) : FieldDefinition :=
  {| f_loc := at0; f_name := name n; f_arguments := []; f_type := t; f_directives := ds |}.
Definition object (n : string) (fs : list FieldDefinition) (ds : list Directive) : TypeDef :=
  {| def_kind := ObjectTypeDefinition; def_loc := at0; def_name := name n;
     def_fields := fs; def_directives := ds |}.
Definition directive (n : string) (args : list Argument) : Directive :=
  {| dir_loc := at0; dir_name := name n; dir_arguments := args |}.
Definition argument (n : string) (v : Value) : Argument :=
  {| a_name := name n; a_value := v |}.
Definition entity (n : string) (fs : list FieldDefinition) : TypeDef :=
  object n fs [directive "entity" []].
Definition id : FieldDefinition := field "id" (NonNullType (named "ID")) [].
End Sample.

(** * Properties *)

(** ** The exception monad *)

Lemma seq_true (s1 s2 : string) : seq s1 s2 = true ↔ s1 = s2.
Proof. apply String.eqb_eq. Qed.

Lemma seq_false (s1 s2 : string) : seq s1 s2 = false ↔ s1 ≠ s2.
Proof. apply String.eqb_neq. Qed.

Lemma fold_left_Throw {A B} (f : B → A → result B) (xs : list A) (e : JsError) :
  fold_left (fun acc x => b ← acc; f b x) xs (Throw e) = Throw e.
Proof. induction xs as [|x xs IH]; [done|]. exact IH. Qed.

Lemma reduce_cons {A B} (f : B → A → result B) (x : A) (xs : list A) (init : B) :
  reduce f (x :: xs) init = (b ← f init x; reduce f xs b).
Proof.
  unfold reduce. simpl. destruct (f init x) as [b|e]; simpl; [done|].
  apply fold_left_Throw.
Qed.

(** An element on which the step raises whatever has been accumulated
    makes the whole loop raise. *)
Lemma reduce_throws {A B} (f : B → A → result B) (xs : list A) (init : B) (x : A) :
  In x xs → (∀ b, throws (f b x)) → throws (reduce f xs init).
Proof.
  intros Hin Hx. revert init.
  induction xs as [|y xs IH]; intros init; [done|].
  rewrite reduce_cons. destruct Hin as [->|Hin].
  - destruct (Hx init) as [e ->]. by exists e.
  - destruct (f init y) as [b|e]; simpl; [by apply IH|by exists e].
Qed.

(** The same when the step can raise one exception only. *)
Lemma reduce_throws_only {A B} (f : B → A → result B) (xs : list A) (init : B)
    (x : A) (e : JsError) :
  In x xs → (∀ b, f b x = Throw e) → (∀ b y e', f b y = Throw e' → e' = e) →
  reduce f xs init = Throw e.
Proof.
  intros Hin Hx Honly. revert init.
  induction xs as [|y xs IH]; intros init; [done|].
  rewrite reduce_cons. destruct Hin as [->|Hin].
  - by rewrite Hx.
  - destruct (f init y) as [b|e'] eqn:Hy; simpl; [by apply IH|].
    by rewrite (Honly _ _ _ Hy).
Qed.

Lemma mapR_throws {A B} (f : A → result B) (xs : list A) (x : A) :
  In x xs → throws (f x) → throws (mapR f xs).
Proof.
  intros Hin [e He].
  induction xs as [|y xs IH]; [done|]. simpl.
  destruct Hin as [->|Hin].
  - rewrite He. by exists e.
  - destruct (f y) as [b|e']; simpl; [|by exists e'].
    destruct (IH Hin) as [e' ->]. by exists e'.
Qed.

Lemma bind_throws {A B} (m : result A) (k : A → result B) :
  throws m → throws (m ≫= k).
Proof. intros [e ->]. by exists e. Qed.

Lemma found_find_In {A} (p : A → bool) (xs : list A) (x : A) :
  In x xs → p x = true → found (List.find p xs) = true.
Proof.
  intros Hin Hp. destruct (List.find p xs) eqn:Hf; [done|].
  by rewrite (find_none _ _ Hf _ Hin) in Hp.
Qed.

(** ** Type unwrapping *)

Lemma innerType_alternating (t : GType) :
  alternating t = true →
  (kind t ≠ KListType → innerTypeFromList t = NamedType (innermost t)) ∧
  (kind t ≠ KNonNullType → innerTypeFromNonNull t = NamedType (innermost t)).
Proof.
  induction t as [name|t IH|t IH]; simpl; intros Halt.
  - done.
  - apply andb_true_iff in Halt as [Hk Halt].
    apply negb_true_iff, bool_decide_eq_false in Hk.
    split; [done|]. intros _. by apply IH.
  - apply andb_true_iff in Halt as [Hk Halt].
    apply negb_true_iff, bool_decide_eq_false in Hk.
    split; [|done]. intros _. by apply IH.
Qed.

(** What [unwrapType] returns is the named type inside, whenever it
    returns a named type. *)
Lemma unwrapType_named (t : GType) (name : Name) :
  unwrapType t = NamedType name → name = innermost t.
Proof.
  assert (∀ t, (∀ name, innerTypeFromList t = NamedType name → name = innermost t) ∧
               (∀ name, innerTypeFromNonNull t = NamedType name → name = innermost t))
    as Hinner.
  { clear. induction t as [n|t IH|t IH]; simpl.
    - split; congruence.
    - split; [congruence|]. apply IH.
    - split; [|congruence]. apply IH. }
  destruct t; simpl; [congruence|apply Hinner..].
Qed.

Lemma innerType_not_alternating (t : GType) :
  alternating t = false →
  (kind t ≠ KListType → ∀ name, innerTypeFromList t ≠ NamedType name) ∧
  (kind t ≠ KNonNullType → ∀ name, innerTypeFromNonNull t ≠ NamedType name).
Proof.
  induction t as [n|t IH|t IH]; simpl; intros Halt; [done|..].
  - split; [done|]. intros _ name.
    apply andb_false_iff in Halt as [Hk|Halt].
    + apply negb_false_iff, bool_decide_eq_true in Hk.
      destruct t; simpl in *; congruence.
    + destruct (decide (kind t = KListType)) as [Hk|Hk].
      * destruct t; simpl in *; congruence.
      * by apply IH.
  - split; [|done]. intros _ name.
    apply andb_false_iff in Halt as [Hk|Halt].
    + apply negb_false_iff, bool_decide_eq_true in Hk.
      destruct t; simpl in *; congruence.
    + destruct (decide (kind t = KNonNullType)) as [Hk|Hk].
      * destruct t; simpl in *; congruence.
      * by apply IH.
Qed.

Lemma unwrapType_not_alternating (t : GType) (name : Name) :
  alternating t = false → unwrapType t ≠ NamedType name.
Proof.
  intros Halt. destruct t as [n|t|t]; simpl in *; [done|..].
  - apply andb_false_iff in Halt as [Hk|Halt].
    + apply negb_false_iff, bool_decide_eq_true in Hk.
      destruct t; simpl in *; congruence.
    + destruct (decide (kind t = KListType)) as [Hk|Hk].
      * destruct t; simpl in *; congruence.
      * by apply innerType_not_alternating.
  - apply andb_false_iff in Halt as [Hk|Halt].
    + apply negb_false_iff, bool_decide_eq_true in Hk.
      destruct t; simpl in *; congruence.
    + destruct (decide (kind t = KNonNullType)) as [Hk|Hk].
      * destruct t; simpl in *; congruence.
      * by apply innerType_not_alternating.
Qed.

Lemma unwrapType_alternating_named (t : GType) :
  alternating t = true → unwrapType t = NamedType (innermost t).
Proof.
  intros Halt. destruct t as [name|t|t]; simpl in *; [done|..];
    apply andb_true_iff in Halt as [Hk Halt];
    apply negb_true_iff, bool_decide_eq_false in Hk;
    by apply innerType_alternating.
Qed.

(** C9: on a named type wrapped in any number of strictly alternating List
    and NonNull wrappers, [unwrapType] returns that innermost named type. *)
Theorem unwrapType_alternating (t : GType) :
  alternating t = true → unwrapType t = NamedType (innermost t).
Proof.
  intros Halt. destruct t as [name|t|t]; simpl in *; [done|..].
  - apply andb_true_iff in Halt as [Hk Halt].
    apply negb_true_iff, bool_decide_eq_false in Hk.
    by apply innerType_alternating.
  - apply andb_true_iff in Halt as [Hk Halt].
    apply negb_true_iff, bool_decide_eq_false in Hk.
    by apply innerType_alternating.
Qed.

Lemma unwrapType_alternating_witness :
  unwrapType (NonNullType (ListType (NonNullType (Sample.named "String")))) =
  NamedType (Sample.name "String").
Proof.
  apply (unwrapType_alternating
           (NonNullType (ListType (NonNullType (Sample.named "String"))))).
  reflexivity.
Defined.

(** ** Fields of a nested list type *)

Lemma validateListFieldType_nested (def : TypeDef) (field : FieldDefinition) (elem : GType) :
  f_type field = ListType (ListType elem) →
  validateListFieldType def field = Throw (TypeError "value").
Proof. unfold validateListFieldType. by intros ->. Qed.

Lemma validateEntityFields_throws (defs : list TypeDef) (def : TypeDef)
    (field : FieldDefinition) :
  In field (def_fields def) →
  throws (validateEntityFieldType defs def field) →
  throws (validateEntityFields defs def).
Proof.
  intros Hin Hthrows. unfold validateEntityFields.
  apply reduce_throws with (x := field); [done|].
  intros errors. by apply bind_throws.
Qed.

Lemma validateTypeDefinitions_throws (defs : list TypeDef) (def : TypeDef) :
  In def defs →
  throws (validateTypeDefinition defs def) →
  throws (validateTypeDefinitions defs).
Proof.
  intros Hin Hthrows. unfold validateTypeDefinitions.
  apply reduce_throws with (x := def); [done|].
  intros errors. by apply bind_throws.
Qed.

Lemma validateSchema_throws (defs : list TypeDef) (def : TypeDef) :
  In def defs →
  throws (validateTypeDefinition defs def) →
  throws (validateSchema defs).
Proof.
  intros Hin Hthrows. unfold validateSchema.
  by apply bind_throws, validateTypeDefinitions_throws with def.
Qed.

(** C10: a field whose type is a list of a list that is not wrapped in
    NonNull, such as [[T]], is a type for which [unwrapType] returns the
    inner List node and not a named type; the check of the inner type then
    reads the name of that node and raises, and so does the validation of
    every entity type with such a field, and of every schema with such an
    entity type. *)
Theorem nested_list_field_throws (defs : list TypeDef) (def : TypeDef)
    (field : FieldDefinition) (elem : GType) :
  def_kind def = ObjectTypeDefinition →
  n_value (def_name def) ≠ RESERVED_TYPE →
  In field (def_fields def) →
  In def defs →
  f_type field = ListType (ListType elem) →
  unwrapType (f_type field) = ListType elem ∧
  validateInnerFieldType defs def field = Throw (TypeError "value") ∧
  throws (validateTypeDefinition defs def) ∧
  throws (validateSchema defs).
Proof.
  intros Hkind Hname Hfield Hdef Htype.
  assert (throws (validateTypeDefinition defs def)) as Hthrows.
  { unfold validateTypeDefinition. rewrite Hkind.
    apply seq_false in Hname. rewrite Hname.
    apply bind_throws, validateEntityFields_throws with field; [done|].
    unfold validateEntityFieldType.
    rewrite (validateListFieldType_nested _ _ _ Htype).
    by eexists. }
  split_and!.
  - by rewrite Htype.
  - unfold validateInnerFieldType. by rewrite Htype.
  - done.
  - by apply validateSchema_throws with def.
Qed.

Lemma nested_list_field_throws_witness :
  let field := Sample.field "matrix" (ListType (ListType (Sample.named "Int"))) [] in
  let def := Sample.entity "Grid" [Sample.id; field] in
  unwrapType (f_type field) = ListType (Sample.named "Int") ∧
  validateInnerFieldType [def] def field = Throw (TypeError "value") ∧
  throws (validateTypeDefinition [def] def) ∧
  throws (validateSchema [def]).
Proof.
  intros field def.
  apply (nested_list_field_throws [def] def field (Sample.named "Int")).
  - reflexivity.
  - discriminate.
  - right. left. reflexivity.
  - left. reflexivity.
  - reflexivity.
Defined.

(** ** The [id] field of an entity type *)

(** C7: for an object type definition that is not the reserved type, the
    check of the [id] field gives exactly one diagnostic, that the field is
    missing, when no field is named [id]; exactly one diagnostic, which
    mentions that entity IDs must be of type ID!, when the field named [id]
    has any type other than NonNull of the named type ID; and none when it
    has exactly that type.  The list for the definition has this check
    between the ones of the entity directive and of the fields. *)
Theorem validateEntityID_cases (defs : list TypeDef) (def : TypeDef) :
  def_kind def = ObjectTypeDefinition →
  n_value (def_name def) ≠ RESERVED_TYPE →
  ((∀ field, In field (def_fields def) → n_value (f_name field) ≠ "id") →
   validateEntityID def =
     [ {| loc := def_loc def;
          entity := JsStr (n_value (def_name def));
          message := "Missing field: id: ID!" |} ]) ∧
  (∀ idField,
     List.find (fun field => seq (n_value (f_name field)) "id") (def_fields def)
       = Some idField →
     ((¬ ∃ name, f_type idField = NonNullType (NamedType name) ∧ n_value name = "ID") →
      ∃ d, validateEntityID def = [d] ∧
           loc d = f_loc idField ∧
           entity d = JsStr (n_value (def_name def)) ∧
           mentions (message d) "Entity IDs must be of type ID!") ∧
     ((∃ name, f_type idField = NonNullType (NamedType name) ∧ n_value name = "ID") →
      validateEntityID def = [])) ∧
  validateTypeDefinition defs def =
    (fields ← validateEntityFields defs def;
     Ok (validateEntityDirective def ++ validateEntityID def ++ fields ++
         validateNoImportDirective def)).
Proof.
  intros Hkind Hname. split_and!.
  - intros Hnone. unfold validateEntityID.
    destruct (List.find _ _) as [idField|] eqn:Hfind; [|done].
    apply find_some in Hfind as [Hin Hid]. apply seq_true in Hid.
    by destruct (Hnone _ Hin).
  - intros idField Hfind. unfold validateEntityID. rewrite Hfind. split.
    + intros Hnot. eexists. split.
      * destruct (f_type idField) as [|?|[name| |]] eqn:Htype; try done.
        destruct (seq (n_value name) "ID") eqn:Hid; [|done].
        apply seq_true in Hid. destruct Hnot. by exists name.
      * split_and!; [done..|]. by exists "Field 'id': ", "".
    + intros (name & -> & Hid). apply seq_true in Hid. by rewrite Hid.
  - unfold validateTypeDefinition. rewrite Hkind.
    apply seq_false in Hname. by rewrite Hname.
Qed.

Lemma validateEntityID_cases_witness :
  let idField := Sample.field "id" (NonNullType (Sample.named "String")) [] in
  let wrong := Sample.entity "Token" [idField] in
  let missing := Sample.entity "Token" [Sample.field "name" (Sample.named "String") []] in
  let right := Sample.entity "Token" [Sample.id] in
  validateEntityID missing =
    [ {| loc := Sample.at0; entity := JsStr "Token"; message := "Missing field: id: ID!" |} ] ∧
  (∃ d, validateEntityID wrong = [d] ∧
        loc d = f_loc idField ∧
        entity d = JsStr "Token" ∧
        mentions (message d) "Entity IDs must be of type ID!") ∧
  validateEntityID right = [].
Proof.
  intros idField wrong missing right.
  assert (∀ fields, n_value (def_name (Sample.entity "Token" fields)) ≠ RESERVED_TYPE)
    as Hname by discriminate.
  split_and!.
  - destruct (validateEntityID_cases [missing] missing eq_refl (Hname _)) as (Hmissing & _).
    apply Hmissing. intros field [<-|[]]. discriminate.
  - destruct (validateEntityID_cases [wrong] wrong eq_refl (Hname _)) as (_ & Htyped & _).
    apply (Htyped idField); [reflexivity|].
    intros (name & Htype & Hid). inversion Htype; subst name. discriminate.
  - destruct (validateEntityID_cases [right] right eq_refl (Hname _)) as (_ & Htyped & _).
    apply (Htyped Sample.id); [reflexivity|].
    by exists (Sample.name "ID").
Defined.

(** ** The shape of a list type *)

(** C2: what [validateListFieldType] does on the three shapes of a list of
    a named type T.  For [T] it gives exactly one diagnostic, which
    recommends [T!] and says that lists with null elements are not
    supported; for [T!]! it gives none.  For [T]! it gives none either:
    its first test asks the type to be a NonNull and a List node at once,
    so the branch that recommends [T!]! is never taken. *)
Theorem validateListFieldType_shapes (def : TypeDef) (field : FieldDefinition) (T : Name) :
  (f_type field = ListType (NamedType T) →
   validateListFieldType def field =
     Ok [ {| loc := f_loc field;
             entity := JsStr (n_value (def_name def));
             message :=
               "Field '" +:+ n_value (f_name field) +:+ "':" +:+ nl +:+
               "Field has type [" +:+ n_value T +:+ "] but" +:+ nl +:+
               "must have type [" +:+ n_value T +:+ "!]" +:+ nl +:+
               nl +:+
               "Reason: Lists with null elements are not supported." |} ]) ∧
  (f_type field = NonNullType (ListType (NamedType T)) →
   validateListFieldType def field = Ok []) ∧
  (f_type field = NonNullType (ListType (NonNullType (NamedType T))) →
   validateListFieldType def field = Ok []).
Proof.
  unfold validateListFieldType. by split_and!; intros ->.
Qed.

Lemma validateListFieldType_shapes_witness :
  let def := Sample.entity "Post" [] in
  validateListFieldType def (Sample.field "tags" (ListType (Sample.named "String")) []) =
    Ok [ {| loc := Sample.at0;
            entity := JsStr "Post";
            message :=
              "Field 'tags':" +:+ nl +:+
              "Field has type [String] but" +:+ nl +:+
              "must have type [String!]" +:+ nl +:+
              nl +:+
              "Reason: Lists with null elements are not supported." |} ] ∧
  validateListFieldType def
    (Sample.field "tags" (NonNullType (ListType (Sample.named "String"))) []) = Ok [] ∧
  validateListFieldType def
    (Sample.field "tags" (NonNullType (ListType (NonNullType (Sample.named "String")))) [])
    = Ok [].
Proof.
  intros def. split_and!.
  - destruct (validateListFieldType_shapes def
                (Sample.field "tags" (ListType (Sample.named "String")) [])
                (Sample.name "String")) as (Hlist & _ & _).
    apply Hlist. reflexivity.
  - destruct (validateListFieldType_shapes def
                (Sample.field "tags" (NonNullType (ListType (Sample.named "String"))) [])
                (Sample.name "String")) as (_ & Hnonnull & _).
    apply Hnonnull. reflexivity.
  - destruct (validateListFieldType_shapes def
                (Sample.field "tags"
                   (NonNullType (ListType (NonNullType (Sample.named "String")))) [])
                (Sample.name "String")) as (_ & _ & Hgood).
    apply Hgood. reflexivity.
Defined.

(** ** Directives of the reserved type *)

Lemma validateImportDirective_throws_only (def : TypeDef) (directive : Directive)
    (e : JsError) :
  validateImportDirective def directive = Throw e → e = ReferenceError "def".
Proof.
  unfold validateImportDirective, validateImportDirectiveName.
  destruct (negb _); simpl; congruence.
Qed.

(** C1: on the reserved type a directive that is not named [import] gives
    no diagnostic.  The check of the directive name raises a
    ReferenceError while it builds the diagnostic, and the exception leaves
    the validation of the type and of the whole schema. *)
Theorem reserved_type_other_directive_throws (defs : list TypeDef) (def : TypeDef)
    (directive : Directive) :
  def_kind def = ObjectTypeDefinition →
  n_value (def_name def) = RESERVED_TYPE →
  In directive (def_directives def) →
  n_value (dir_name directive) ≠ "import" →
  In def defs →
  validateImportDirectiveName directive = Throw (ReferenceError "def") ∧
  validateTypeDefinition defs def = Throw (ReferenceError "def") ∧
  throws (validateSchema defs).
Proof.
  intros Hkind Hname Hdir Hother Hdef.
  apply seq_false in Hother. apply seq_true in Hname.
  assert (validateImportDirectiveName directive = Throw (ReferenceError "def")) as Hthrow.
  { unfold validateImportDirectiveName. by rewrite Hother. }
  assert (validateTypeDefinition defs def = Throw (ReferenceError "def")) as Htype.
  { unfold validateTypeDefinition. rewrite Hkind, Hname.
    unfold validateSubgraphSchemaDirectives.
    rewrite (reduce_throws_only _ _ _ directive (ReferenceError "def")); [done..| |].
    - intros errors. unfold validateImportDirective. by rewrite Hthrow.
    - intros errors y e Hy.
      destruct (validateImportDirective def y) as [ds|e'] eqn:Himport; [done|].
      simpl in Hy. injection Hy as <-.
      by apply validateImportDirective_throws_only in Himport. }
  split_and!; [done..|].
  apply validateSchema_throws with def; [done|]. by eexists.
Qed.

Lemma reserved_type_other_directive_throws_witness :
  let directive := Sample.directive "entity" [] in
  let def := Sample.object "_Schema_" [] [directive] in
  validateImportDirectiveName directive = Throw (ReferenceError "def") ∧
  validateTypeDefinition [def] def = Throw (ReferenceError "def") ∧
  throws (validateSchema [def]).
Proof.
  intros directive def.
  apply (reserved_type_other_directive_throws [def] def directive).
  - reflexivity.
  - reflexivity.
  - left. reflexivity.
  - discriminate.
  - left. reflexivity.
Defined.

(** ** An [@import] whose [types] argument is not a list *)

Lemma find_all_false {A} (p : A → bool) (xs : list A) :
  (∀ x, In x xs → p x = false) → List.find p xs = None.
Proof.
  induction xs as [|x xs IH]; intros Hall; [done|]. simpl.
  rewrite (Hall x); [|by left]. apply IH. intros y Hy. apply Hall. by right.
Qed.

Lemma gatherImportedTypes_throws (defs : list TypeDef) (def : TypeDef)
    (directive : Directive) (types : Argument) :
  def_kind def = ObjectTypeDefinition →
  n_value (def_name def) = RESERVED_TYPE →
  In def defs →
  In directive (def_directives def) →
  n_value (dir_name directive) = "import" →
  In types (dir_arguments directive) →
  n_value (a_name types) = "types" →
  (∀ argument, In argument (dir_arguments directive) →
               n_value (a_name argument) = "types" →
               isListValue (a_value argument) = false) →
  throws (gatherImportedTypes defs).
Proof.
  intros Hkind Hname Hdef Hdir Himport Htypes Htypes_name Hnolist.
  assert (importWithTypes directive = true) as Hwith.
  { unfold importWithTypes. apply andb_true_iff. split; [by apply seq_true|].
    apply found_find_In with types; [done|]. by apply seq_true. }
  unfold gatherImportedTypes. apply bind_throws.
  apply mapR_throws with def.
  - apply filter_In. split; [done|].
    rewrite Hkind, bool_decide_eq_true_2 by done.
    apply seq_true in Hname. rewrite Hname. simpl.
    by apply found_find_In with directive.
  - apply mapR_throws with None; [|by eexists].
    apply in_map_iff. exists directive. split; [|by apply filter_In].
    apply find_all_false. intros argument Hin.
    destruct (seq (n_value (a_name argument)) "types") eqn:Hn; [|done].
    apply seq_true in Hn. simpl. by apply Hnolist.
Qed.

(** C3: when the reserved type has an [@import] directive whose [types]
    argument is there and is not a list, the check of the directive gives
    the diagnostic that 'types' must be a list, but [validateSchema] does
    not return it: [gatherImportedTypes] looks for a [types] argument with
    a list value, finds none and reads a property of [undefined], so the
    validation of the schema raises. *)
Theorem types_not_a_list_throws (defs : list TypeDef) (def : TypeDef)
    (directive : Directive) (types : Argument) :
  def_kind def = ObjectTypeDefinition →
  n_value (def_name def) = RESERVED_TYPE →
  In def defs →
  In directive (def_directives def) →
  n_value (dir_name directive) = "import" →
  In types (dir_arguments directive) →
  n_value (a_name types) = "types" →
  (∀ argument, In argument (dir_arguments directive) →
               n_value (a_name argument) = "types" →
               isListValue (a_value argument) = false) →
  validateImportDirectiveTypes def directive =
    [ {| loc := n_loc (dir_name directive);
         entity := JsStr (n_value (def_name def));
         message := "@import argument 'types' must be an list" |} ] ∧
  throws (gatherImportedTypes defs) ∧
  throws (validateSchema defs).
Proof.
  intros Hkind Hname Hdef Hdir Himport Htypes Htypes_name Hnolist.
  assert (throws (gatherImportedTypes defs)) as Hgather
    by by eapply gatherImportedTypes_throws.
  split_and!; [|done|].
  - unfold validateImportDirectiveTypes.
    destruct (List.find _ _) as [argument|] eqn:Hfind.
    + apply find_some in Hfind as [Hin Hn]. apply seq_true in Hn.
      specialize (Hnolist _ Hin Hn).
      unfold validateImportDirectiveArgumentTypes.
      by destruct (a_value argument).
    + apply find_none with (x := types) in Hfind; [|done].
      apply seq_false in Hfind. done.
  - unfold validateSchema.
    destruct (validateTypeDefinitions defs) as [ds|e]; simpl; [|by eexists].
    by apply bind_throws.
Qed.

Lemma types_not_a_list_throws_witness :
  let directive :=
    Sample.directive "import"
      [ Sample.argument "types" (StringValue "Token");
        Sample.argument "from" (ObjectValue [(Sample.name "name", StringValue "tokens")]) ] in
  let def := Sample.object "_Schema_" [] [directive] in
  validateImportDirectiveTypes def directive =
    [ {| loc := Sample.at0;
         entity := JsStr "_Schema_";
         message := "@import argument 'types' must be an list" |} ] ∧
  throws (gatherImportedTypes [def]) ∧
  throws (validateSchema [def]).
Proof.
  intros directive def.
  apply (types_not_a_list_throws [def] def directive
           (Sample.argument "types" (StringValue "Token"))).
  - reflexivity.
  - reflexivity.
  - left. reflexivity.
  - left. reflexivity.
  - reflexivity.
  - left. reflexivity.
  - reflexivity.
  - intros argument [<-|[<-|[]]]; [reflexivity|discriminate].
Defined.

(** ** [@derivedFrom]: the argument checks *)

(** C4 fails on a [@derivedFrom(from: 1)]: it has no argument named
    [field], and the value of its first argument is not a string, yet the
    validator does not report both findings. *)
Lemma derivedFrom_both_wrong_reports_one :
  let directive := Sample.directive "derivedFrom" [Sample.argument "from" (IntValue "1")] in
  let field := Sample.field "tokens" (Sample.named "Token") [directive] in
  let def := Sample.entity "Owner" [Sample.id; field] in
  (¬ ∃ argument, dir_arguments directive = [argument] ∧
                 n_value (a_name argument) = "field") ∧
  (∃ argument rest, dir_arguments directive = argument :: rest ∧
                    isStringValue (a_value argument) = false) ∧
  ¬ (∃ ds d1 d2,
       validateDerivedFromDirective [def] def field directive = Ok ds ∧
       In d1 ds ∧ In d2 ds ∧
       message d1 = "Field 'tokens': @derivedFrom directive must have a 'field' argument" ∧
       message d2 =
         "Field 'tokens': Value of the @derivedFrom 'field' argument must be a string").
Proof.
  intros directive field def. split_and!.
  - intros (argument & Hargs & Hname). injection Hargs as <-. discriminate.
  - by eexists _, _.
  - intros (ds & d1 & d2 & Hds & _ & Hd2 & _ & Hm2).
    injection Hds as <-. destruct Hd2 as [<-|[]]. discriminate.
Qed.

Lemma field_message_inj (fieldName rest rest' : string) :
  "Field '" +:+ fieldName +:+ "': " +:+ rest = "Field '" +:+ fieldName +:+ "': " +:+ rest' →
  rest = rest'.
Proof.
  intros H.
  apply (String.app_inj "Field '") in H.
  apply (String.app_inj fieldName) in H.
  by apply (String.app_inj "': ") in H.
Qed.

(** C4, as the code has it: the two argument checks of a [@derivedFrom]
    directive run one after the other and the first one that fails ends the
    validation of the directive.  A directive that does not have exactly
    one argument, named [field], gets exactly one diagnostic, that it must
    have a 'field' argument, whatever the value of its first argument is;
    a directive with exactly one argument, named [field], whose value is
    not a string gets exactly one diagnostic, that the value must be a
    string.  Conversely, whenever the validation returns, each of the two
    diagnostics is among the result only in its own case. *)
Theorem validateDerivedFromDirective_first_failure (defs : list TypeDef) (def : TypeDef)
    (field : FieldDefinition) (directive : Directive) :
  ((¬ ∃ argument, dir_arguments directive = [argument] ∧
                  n_value (a_name argument) = "field") →
   validateDerivedFromDirective defs def field directive =
     Ok [ {| loc := dir_loc directive;
             entity := JsStr (n_value (def_name def));
             message :=
               "Field '" +:+ n_value (f_name field) +:+ "': " +:+
               "@derivedFrom directive must have a 'field' argument" |} ]) ∧
  (∀ argument,
     dir_arguments directive = [argument] →
     n_value (a_name argument) = "field" →
     isStringValue (a_value argument) = false →
     validateDerivedFromDirective defs def field directive =
       Ok [ {| loc := dir_loc directive;
               entity := JsStr (n_value (def_name def));
               message :=
                 "Field '" +:+ n_value (f_name field) +:+ "': " +:+
                 "Value of the @derivedFrom 'field' argument must be a string" |} ]) ∧
  (∀ ds d,
     validateDerivedFromDirective defs def field directive = Ok ds →
     In d ds →
     (message d =
        "Field '" +:+ n_value (f_name field) +:+ "': " +:+
        "Value of the @derivedFrom 'field' argument must be a string" →
      ∃ argument, dir_arguments directive = [argument] ∧
                  n_value (a_name argument) = "field" ∧
                  isStringValue (a_value argument) = false) ∧
     (message d =
        "Field '" +:+ n_value (f_name field) +:+ "': " +:+
        "@derivedFrom directive must have a 'field' argument" →
      ¬ ∃ argument, dir_arguments directive = [argument] ∧
                    n_value (a_name argument) = "field")).
Proof.
  unfold validateDerivedFromDirective. split_and!.
  - intros Hnot.
    destruct (dir_arguments directive) as [|argument [|? ?]]; [done| |done].
    destruct (seq (n_value (a_name argument)) "field") eqn:Hname; [|done].
    apply seq_true in Hname. destruct Hnot. by exists argument.
  - intros argument -> Hname Hvalue. apply seq_true in Hname.
    by rewrite Hname, Hvalue.
  - intros ds d.
    destruct (dir_arguments directive) as [|argument [|second rest]] eqn:Hargs.
    + intros [= <-] [<-|[]]. simpl. split.
      * intros H. apply field_message_inj in H. discriminate.
      * by intros _ (argument & [=] & _).
    + destruct (seq (n_value (a_name argument)) "field") eqn:Hname; simpl.
      * apply seq_true in Hname.
        destruct (isStringValue (a_value argument)) eqn:Hvalue; simpl.
        -- destruct (fieldTargetEntity defs field) as [[targetEntity|]|e]; simpl;
             [|by intros [= <-] []|done].
           destruct (List.find _ (def_fields targetEntity)) as [derivedFromField|].
           ++ destruct (name_value _) as [backrefName|e]; simpl; [|done].
              destruct (entityTypeByName defs backrefName) as [backRefEntity|];
                [destruct (negb _)|]; intros [= <-] Hd; try done;
                destruct Hd as [<-|[]]; simpl;
                (split; intros H; apply field_message_inj in H; vm_compute in H;
                 discriminate).
           ++ intros [= <-] [<-|[]]. simpl.
              split; intros H; apply field_message_inj in H; vm_compute in H;
                discriminate.
        -- intros [= <-] [<-|[]]. simpl. split.
           ++ intros _. by exists argument.
           ++ intros H. apply field_message_inj in H. discriminate.
      * apply seq_false in Hname. intros [= <-] [<-|[]]. simpl. split.
        -- intros H. apply field_message_inj in H. discriminate.
        -- intros _ (argument' & [= <-] & Hfield). done.
    + intros [= <-] [<-|[]]. simpl. split.
      * intros H. apply field_message_inj in H. discriminate.
      * by intros _ (argument' & [=] & _).
Qed.

Lemma validateDerivedFromDirective_first_failure_witness :
  let misnamed := Sample.directive "derivedFrom" [Sample.argument "from" (IntValue "1")] in
  let number := Sample.directive "derivedFrom" [Sample.argument "field" (IntValue "1")] in
  let field := Sample.field "tokens" (Sample.named "Token") [misnamed; number] in
  let def := Sample.entity "Owner" [Sample.id; field] in
  let field_diagnostic :=
    {| loc := Sample.at0;
       entity := JsStr "Owner";
       message :=
         "Field 'tokens': @derivedFrom directive must have a 'field' argument" |} in
  let string_diagnostic :=
    {| loc := Sample.at0;
       entity := JsStr "Owner";
       message :=
         "Field 'tokens': Value of the @derivedFrom 'field' argument must be a string" |} in
  validateDerivedFromDirective [def] def field misnamed = Ok [field_diagnostic] ∧
  validateDerivedFromDirective [def] def field number = Ok [string_diagnostic] ∧
  (∃ argument, dir_arguments number = [argument] ∧
               n_value (a_name argument) = "field" ∧
               isStringValue (a_value argument) = false) ∧
  (¬ ∃ argument, dir_arguments misnamed = [argument] ∧
                 n_value (a_name argument) = "field").
Proof.
  intros misnamed number field def field_diagnostic string_diagnostic. split_and!.
  - destruct (validateDerivedFromDirective_first_failure [def] def field misnamed)
      as (Hfirst & _ & _).
    apply Hfirst.
    intros (argument & Hargs & Hname). injection Hargs as <-. discriminate.
  - destruct (validateDerivedFromDirective_first_failure [def] def field number)
      as (_ & Hsecond & _).
    apply (Hsecond (Sample.argument "field" (IntValue "1"))); reflexivity.
  - destruct (validateDerivedFromDirective_first_failure [def] def field number)
      as (_ & _ & Honly).
    destruct (Honly [string_diagnostic] string_diagnostic) as [Hstring _];
      [reflexivity|by left|].
    apply Hstring. reflexivity.
  - destruct (validateDerivedFromDirective_first_failure [def] def field misnamed)
      as (_ & _ & Honly).
    destruct (Honly [field_diagnostic] field_diagnostic) as [_ Hfield];
      [reflexivity|by left|].
    apply Hfield. reflexivity.
Defined.

(** ** [@derivedFrom]: the target entity and the field it names *)

(** What [entityTypeByName] resolves a name to: the first definition of
    the schema that is an interface or object type, has an [@entity]
    directive and has that name. *)
Lemma entityTypeByName_Some (defs : list TypeDef) (name : string) (T : TypeDef) :
  entityTypeByName defs name = Some T →
  In T defs ∧
  (def_kind T = InterfaceTypeDefinition ∨ def_kind T = ObjectTypeDefinition) ∧
  (∃ directive, In directive (def_directives T) ∧ n_value (dir_name directive) = "entity") ∧
  n_value (def_name T) = name.
Proof.
  unfold entityTypeByName. intros Hfind.
  apply find_some in Hfind as [Hin Hname].
  apply filter_In in Hin as [Hin Hentity].
  apply filter_In in Hin as [Hin Hkind].
  split_and!; [done| | |by apply seq_true].
  - apply orb_true_iff in Hkind as [Hkind|Hkind];
      apply bool_decide_eq_true in Hkind; auto.
  - destruct (List.find _ (def_directives T)) as [directive|] eqn:Hdir; [|done].
    apply find_some in Hdir as [Hdir_in Hdir_name].
    exists directive. split; [done|by apply seq_true].
Qed.

Lemma find_field_by_name (fields : list FieldDefinition) (f : string) :
  List.find (fun field => bool_decide (JsStr (n_value (f_name field)) = JsStr f)) fields =
  List.find (fun field => seq (n_value (f_name field)) f) fields.
Proof.
  induction fields as [|field fields IH]; [done|]. simpl. rewrite IH.
  destruct (seq (n_value (f_name field)) f) eqn:Hname.
  - apply seq_true in Hname. by rewrite bool_decide_eq_true_2 by congruence.
  - apply seq_false in Hname. by rewrite bool_decide_eq_false_2 by congruence.
Qed.

Lemma is_entity_filters (def : TypeDef) :
  is_entity def ↔
  (bool_decide (def_kind def = InterfaceTypeDefinition) ||
   bool_decide (def_kind def = ObjectTypeDefinition)) = true ∧
  found (List.find (fun directive => seq (n_value (dir_name directive)) "entity")
                   (def_directives def)) = true.
Proof.
  unfold is_entity. rewrite orb_true_iff, !bool_decide_eq_true. split.
  - intros [Hkind (directive & Hin & Hname)]. split; [done|].
    apply found_find_In with directive; [done|]. by apply seq_true.
  - intros [Hkind Hfound]. split; [done|].
    destruct (List.find _ (def_directives def)) as [directive|] eqn:Hfind; [|done].
    apply find_some in Hfind as [Hin Hname]. exists directive.
    split; [done|by apply seq_true].
Qed.

Lemma entityTypeByName_cons (def : TypeDef) (defs : list TypeDef) (name : string) :
  (is_entity def → n_value (def_name def) = name →
   entityTypeByName (def :: defs) name = Some def) ∧
  (¬ (is_entity def ∧ n_value (def_name def) = name) →
   entityTypeByName (def :: defs) name = entityTypeByName defs name).
Proof.
  unfold entityTypeByName. simpl. split.
  - intros Hentity Hname. apply is_entity_filters in Hentity as [-> Hfound].
    simpl. rewrite Hfound. simpl. apply seq_true in Hname. by rewrite Hname.
  - intros Hnot.
    destruct (bool_decide (def_kind def = InterfaceTypeDefinition) ||
              bool_decide (def_kind def = ObjectTypeDefinition)) eqn:Hkind; [|done].
    simpl.
    destruct (found (List.find (fun directive => seq (n_value (dir_name directive)) "entity")
                               (def_directives def))) eqn:Hfound; [|done].
    simpl. destruct (seq (n_value (def_name def)) name) eqn:Hname; [|done].
    destruct Hnot. split; [by apply is_entity_filters|by apply seq_true].
Qed.

Lemma entityTypeByName_resolves (defs : list TypeDef) (name : string) (T : TypeDef) :
  resolves_to defs name T → entityTypeByName defs name = Some T.
Proof.
  intros (before & after & -> & Hentity & Hname & Hfirst).
  induction before as [|def before IH]; simpl.
  - by apply entityTypeByName_cons.
  - destruct (entityTypeByName_cons def (before ++ T :: after) name) as [_ ->].
    + apply IH. intros def' Hin. apply Hfirst. by right.
    + intros [Hdef Hdef_name]. by apply (Hfirst def); [left|..].
Qed.

Lemma entityTypeByName_unresolved (defs : list TypeDef) (name : string) :
  unresolved defs name → entityTypeByName defs name = None.
Proof.
  intros Hnone. induction defs as [|def defs IH]; [done|].
  destruct (entityTypeByName_cons def defs name) as [_ ->].
  - apply IH. intros def' Hin. apply Hnone. by right.
  - intros [Hdef Hdef_name]. by apply (Hnone def); [left|..].
Qed.

(** C5, on the code: a [@derivedFrom(field: "f")] directive on a field
    of a type named [def].  The name of a type expression is its innermost
    named type; it resolves to the first interface or object type
    definition of the schema that has an [@entity] directive and that name.

    When the type of the field is alternating: if its name resolves to T
    and T has no field named f, there is exactly one diagnostic, that f
    does not exist on type T; if T has a field f whose type is alternating
    and whose name does not resolve to an entity or differs from the name of
    [def], there is exactly one diagnostic, which names the three accepted
    forms; if the name of the field's type does not resolve, there is no
    diagnostic.

    When a type is not alternating, such as [[String]], the validator
    raises a TypeError where the claim promises a diagnostic or none: for
    the type of the field f of T, and for the type of the field itself. *)
Theorem validateDerivedFromDirective_target (defs : list TypeDef) (def : TypeDef)
    (field : FieldDefinition) (directive : Directive) (argument : Argument)
    (f : string) :
  dir_arguments directive = [argument] →
  n_value (a_name argument) = "field" →
  a_value argument = StringValue f →
  (alternating (f_type field) = true →
   (∀ T, resolves_to defs (n_value (innermost (f_type field))) T →
      ((∀ other, In other (def_fields T) → n_value (f_name other) ≠ f) →
       validateDerivedFromDirective defs def field directive =
         Ok [ {| loc := dir_loc directive;
                 entity := JsStr (n_value (def_name def));
                 message :=
                   "Field '" +:+ n_value (f_name field) +:+ "': " +:+
                   "@derivedFrom field '" +:+ f +:+ "' " +:+
                   "does not exist on type '" +:+ n_value (def_name T) +:+ "'" |} ]) ∧
      (∀ derivedFromField,
         List.find (fun other => seq (n_value (f_name other)) f) (def_fields T)
           = Some derivedFromField →
         (alternating (f_type derivedFromField) = true →
          unresolved defs (n_value (innermost (f_type derivedFromField))) ∨
          n_value (innermost (f_type derivedFromField)) ≠ n_value (def_name def) →
          validateDerivedFromDirective defs def field directive =
            Ok [ {| loc := dir_loc directive;
                    entity := JsStr (n_value (def_name def));
                    message :=
                      "Field '" +:+ n_value (f_name field) +:+ "': " +:+
                      "@derivedFrom field '" +:+ f +:+ "' " +:+
                      "on type '" +:+ n_value (def_name T) +:+
                      "' must have the type " +:+
                      "'" +:+ n_value (def_name def) +:+ "', '" +:+
                      n_value (def_name def) +:+ "!' or '[" +:+
                      n_value (def_name def) +:+ "!]!'" |} ]) ∧
         (alternating (f_type derivedFromField) = false →
          validateDerivedFromDirective defs def field directive =
            Throw (TypeError "value")))) ∧
   (unresolved defs (n_value (innermost (f_type field))) →
    validateDerivedFromDirective defs def field directive = Ok [])) ∧
  (alternating (f_type field) = false →
   validateDerivedFromDirective defs def field directive = Throw (TypeError "value")).
Proof.
  intros Hargs Hname Hvalue. apply seq_true in Hname.
  unfold validateDerivedFromDirective, fieldTargetEntity, fieldTargetEntityName.
  rewrite Hargs, Hname, Hvalue. simpl. split.
  - intros Halt. rewrite (unwrapType_alternating_named _ Halt). simpl. split.
    + intros T HT. rewrite (entityTypeByName_resolves _ _ _ HT).
      rewrite find_field_by_name. split.
      * intros Hnone. rewrite find_all_false; [done|].
        intros other Hin. apply seq_false. by apply Hnone.
      * intros derivedFromField ->. split.
        -- intros Hback_alt Hback.
           rewrite (unwrapType_alternating_named _ Hback_alt). simpl.
           destruct Hback as [Hunresolved|Hother].
           ++ by rewrite (entityTypeByName_unresolved _ _ Hunresolved).
           ++ destruct (entityTypeByName defs _) as [E|] eqn:HE; [|done].
              apply entityTypeByName_Some in HE as (_ & _ & _ & HE).
              apply seq_false in Hother. rewrite HE. by rewrite Hother.
        -- intros Hback_alt.
           destruct (unwrapType (f_type derivedFromField)) as [name| |] eqn:Hunwrap;
             [|done..].
           by destruct (unwrapType_not_alternating _ name Hback_alt).
    + intros Hunresolved. by rewrite (entityTypeByName_unresolved _ _ Hunresolved).
  - intros Halt.
    destruct (unwrapType (f_type field)) as [name| |] eqn:Hunwrap; [|done..].
    by destruct (unwrapType_not_alternating _ name Halt).
Qed.

Lemma validateDerivedFromDirective_target_witness :
  let directive :=
    Sample.directive "derivedFrom" [Sample.argument "field" (StringValue "owner")] in
  let argument := Sample.argument "field" (StringValue "owner") in
  let field := Sample.field "tokens" (ListType (NonNullType (Sample.named "Token"))) [directive] in
  let nested := Sample.field "tokens" (ListType (ListType (Sample.named "Token"))) [directive] in
  let def := Sample.entity "Owner" [Sample.id; field] in
  let plain := Sample.object "Token" [Sample.id; Sample.field "owner" (Sample.named "Owner") []] [] in
  let interface (fields : list FieldDefinition) :=
    {| def_kind := InterfaceTypeDefinition; def_loc := Sample.at0;
       def_name := Sample.name "Token"; def_fields := fields;
       def_directives := [Sample.directive "entity" []] |} in
  let bare := interface [Sample.id] in
  let owned := interface [Sample.id; Sample.field "owner" (NonNullType (Sample.named "String")) []] in
  let broken := interface [Sample.id; Sample.field "owner" (ListType (ListType (Sample.named "String"))) []] in
  validateDerivedFromDirective [def; plain; bare] def field directive =
    Ok [ {| loc := Sample.at0;
            entity := JsStr "Owner";
            message :=
              "Field 'tokens': @derivedFrom field 'owner' does not exist on type 'Token'" |} ] ∧
  validateDerivedFromDirective [def; plain; owned] def field directive =
    Ok [ {| loc := Sample.at0;
            entity := JsStr "Owner";
            message :=
              "Field 'tokens': @derivedFrom field 'owner' on type 'Token' must have the type 'Owner', 'Owner!' or '[Owner!]!'" |} ] ∧
  validateDerivedFromDirective [def; plain; broken] def field directive =
    Throw (TypeError "value") ∧
  validateDerivedFromDirective [def; plain] def field directive = Ok [] ∧
  validateDerivedFromDirective [def; plain; bare] def nested directive =
    Throw (TypeError "value").
Proof.
  intros directive argument field nested def plain interface bare owned broken.
  assert (∀ fields, is_entity (interface fields)) as Hentity.
  { intros fields. split; [by left|]. eexists. split; [by left|reflexivity]. }
  assert (¬ is_entity plain) as Hplain by (by intros [_ (d & [] & _)]).
  assert (∀ fields, resolves_to [def; plain; interface fields] "Token" (interface fields))
    as Hresolves.
  { intros fields. exists [def; plain], []. split_and!; [reflexivity|done|reflexivity|].
    intros other [<-|[<-|[]]] Hother; [discriminate|done]. }
  split_and!.
  - destruct (validateDerivedFromDirective_target [def; plain; bare] def field directive
                argument "owner" eq_refl eq_refl eq_refl) as [Hgood _].
    destruct (Hgood eq_refl) as [Hresolved _].
    destruct (Hresolved bare (Hresolves _)) as [Hmissing _].
    apply Hmissing. intros other [<-|[]]. discriminate.
  - destruct (validateDerivedFromDirective_target [def; plain; owned] def field directive
                argument "owner" eq_refl eq_refl eq_refl) as [Hgood _].
    destruct (Hgood eq_refl) as [Hresolved _].
    destruct (Hresolved owned (Hresolves _)) as [_ Hback].
    destruct (Hback (Sample.field "owner" (NonNullType (Sample.named "String")) []) eq_refl)
      as [Hforms _].
    apply Hforms; [reflexivity|]. right. discriminate.
  - destruct (validateDerivedFromDirective_target [def; plain; broken] def field directive
                argument "owner" eq_refl eq_refl eq_refl) as [Hgood _].
    destruct (Hgood eq_refl) as [Hresolved _].
    destruct (Hresolved broken (Hresolves _)) as [_ Hback].
    destruct (Hback (Sample.field "owner" (ListType (ListType (Sample.named "String"))) [])
                eq_refl) as [_ Hthrows].
    apply Hthrows. reflexivity.
  - destruct (validateDerivedFromDirective_target [def; plain] def field directive
                argument "owner" eq_refl eq_refl eq_refl) as [Hgood _].
    destruct (Hgood eq_refl) as [_ Hunresolved].
    apply Hunresolved. intros other [<-|[<-|[]]] Hother; [discriminate|done].
  - destruct (validateDerivedFromDirective_target [def; plain; bare] def nested directive
                argument "owner" eq_refl eq_refl eq_refl) as [_ Hnested].
    apply Hnested. reflexivity.
Defined.

(** ** Naming collisions *)

Lemma occurrences_snoc (name type : JsVal) (processed : list JsVal) :
  occurrences name (processed ++ [type]) =
  occurrences name processed + (if decide (type = name) then 1 else 0).
Proof.
  unfold occurrences. rewrite count_occ_app. simpl.
  destruct (JsVal_eq_dec type name); by destruct (decide (type = name)).
Qed.

Lemma reported_snoc (name : JsVal) (ds : list Diagnostic) (d : Diagnostic) :
  reported name (ds ++ [d]) =
  reported name ds + (if decide (entity d = name) then 1 else 0).
Proof.
  unfold reported. rewrite List.filter_app, List.length_app. simpl.
  destruct (decide (entity d = name)).
  - by rewrite bool_decide_eq_true_2.
  - by rewrite bool_decide_eq_false_2.
Qed.

Lemma collisions_inv_init :
  collisions_inv [] {| errors := []; seen := ∅; conflicting := ∅ |}.
Proof.
  split; simpl.
  - intros name. split; [set_solver|lia].
  - intros name. split; [set_solver|lia].
  - done.
  - constructor.
Qed.

Lemma collisions_step_second (processed : list JsVal) (st : Collisions) (type : JsVal) :
  collisions_inv processed st →
  bool_decide (type ∈ seen st) && negb (bool_decide (type ∈ conflicting st)) =
  bool_decide (occurrences type processed = 1).
Proof.
  intros [Hseen Hconf _ _].
  specialize (Hseen type). specialize (Hconf type).
  destruct (decide (occurrences type processed = 1)) as [Hone|Hnot].
  - rewrite (bool_decide_eq_true_2 (_ = 1)) by done.
    rewrite bool_decide_eq_true_2 by (apply Hseen; lia).
    rewrite bool_decide_eq_false_2; [done|]. rewrite Hconf. lia.
  - rewrite (bool_decide_eq_false_2 (_ = 1)) by done.
    apply andb_false_iff. rewrite negb_false_iff.
    rewrite bool_decide_eq_false, bool_decide_eq_true, Hseen, Hconf. lia.
Qed.

Lemma collisions_inv_step (processed : list JsVal) (st : Collisions) (type : JsVal) :
  collisions_inv processed st →
  collisions_inv (processed ++ [type]) (collisions_step st type).
Proof.
  intros Hinv. unfold collisions_step.
  rewrite (collisions_step_second processed) by done.
  destruct Hinv as [Hseen Hconf Herr Hshape].
  case_bool_decide as Hocc; split; simpl.
  - intros name. rewrite occurrences_snoc, Hseen.
    destruct (decide (type = name)) as [<-|Hne]; lia.
  - intros name. rewrite occurrences_snoc, elem_of_union, elem_of_singleton, Hconf.
    destruct (decide (type = name)) as [<-|Hne].
    + split; [lia|auto].
    + split; [intros [->|Hin]; [done|lia]|intros Hin; right; lia].
  - intros name. rewrite occurrences_snoc, reported_snoc, Herr. simpl.
    destruct (decide (type = name)) as [<-|Hne]; repeat case_decide; lia.
  - apply Forall_app. split; [done|]. by repeat constructor.
  - intros name. rewrite occurrences_snoc, elem_of_union, elem_of_singleton, Hseen.
    destruct (decide (type = name)) as [<-|Hne].
    + split; [lia|auto].
    + split; [intros [->|Hin]; [done|lia]|intros Hin; right; lia].
  - intros name. rewrite occurrences_snoc, Hconf.
    destruct (decide (type = name)) as [<-|Hne]; lia.
  - intros name. rewrite occurrences_snoc, Herr.
    destruct (decide (type = name)) as [<-|Hne]; repeat case_decide; lia.
  - done.
Qed.
Lemma collisions_inv_fold (types processed : list JsVal) (st : Collisions) :
  collisions_inv processed st →
  collisions_inv (processed ++ types) (fold_left collisions_step types st).
Proof.
  revert processed st.
  induction types as [|type types IH]; intros processed st Hinv; simpl.
  - by rewrite app_nil_r.
  - replace (processed ++ type :: types) with ((processed ++ [type]) ++ types)
      by by rewrite <- app_assoc.
    by apply IH, collisions_inv_step.
Qed.

(** C6: for every sequence of type names, the collision check gives
    exactly one diagnostic for each name that occurs more than once,
    however often it occurs, and none for a name that occurs once or not at
    all; every diagnostic it gives has the location [{start: 1, end: 1}],
    the colliding name as its entity and a message that names it. *)
Theorem validateNamingCollisionsInTypes_once (types : list JsVal) (name : JsVal) :
  reported name (validateNamingCollisionsInTypes types) =
    (if decide (2 ≤ occurrences name types) then 1 else 0) ∧
  Forall (fun d =>
            loc d = {| loc_start := 1; loc_end := 1 |} ∧
            2 ≤ occurrences (entity d) types ∧
            message d = "Type '" +:+ toString (entity d) +:+ "' is defined more than once")
         (validateNamingCollisionsInTypes types).
Proof.
  unfold validateNamingCollisionsInTypes.
  destruct (collisions_inv_fold types [] _ collisions_inv_init)
    as [_ _ Herr Hshape]. simpl in *.
  split; [apply Herr|].
  apply Forall_forall. intros d Hd.
  rewrite Forall_forall in Hshape. pose proof (Hshape d Hd) as Hd_shape.
  split_and!; [by rewrite Hd_shape|..|by rewrite Hd_shape].
  specialize (Herr (entity d)). case_decide; [done|].
  unfold reported in Herr. apply length_zero_iff_nil in Herr.
  assert (In d (List.filter (fun d' => bool_decide (entity d' = entity d))
                  (errors (fold_left collisions_step types
                     {| errors := []; seen := ∅; conflicting := ∅ |})))) as Hin.
  { apply filter_In. split; [by apply list_elem_of_In|by apply bool_decide_eq_true_2]. }
  by rewrite Herr in Hin.
Qed.

(** ** The inner type of a field *)

Lemma string_app_cons (x : ascii) (a b : string) :
  String x a +:+ b = String x (a +:+ b).
Proof. reflexivity. Qed.

Lemma string_app_assoc (a b c : string) : (a +:+ b) +:+ c = a +:+ b +:+ c.
Proof.
  induction a as [|x a IH]; [done|]. by rewrite !string_app_cons, IH.
Qed.

Lemma string_app_nil_r (a : string) : a +:+ "" = a.
Proof.
  induction a as [|x a IH]; [done|]. by rewrite string_app_cons, IH.
Qed.

Lemma has_char_app (c : ascii) (a b : string) :
  has_char c (a +:+ b) ↔ has_char c a ∨ has_char c b.
Proof.
  unfold has_char. induction a as [|x a IH]; [simpl; tauto|].
  rewrite string_app_cons. simpl. rewrite IH. tauto.
Qed.

Lemma mentions_has_char (c : ascii) (text part : string) :
  mentions text part → has_char c part → has_char c text.
Proof.
  intros (before & after & ->) Hc.
  apply has_char_app. right. apply has_char_app. by left.
Qed.

(** C8, on the code: the check of the inner type of a field, whose name N
    is the innermost named type of its type expression.

    When the type is alternating and the imported type names can be
    gathered: if N is one of the seven builtin scalar names, the local type
    names or the imported type names, there is no diagnostic; otherwise
    there is exactly one, and its message contains "Unknown type 'N'"; when
    the suggestion table gives a first match S for N the message goes on
    with "Did you mean 'S'?", and when the table gives none the message
    ends after the type name and (names have no question mark) contains no
    "Did you mean" question.  The table gives 'Bytes' for 'address' and
    nothing for 'adress'.

    When the type is not alternating, such as [[adress]]!, or when the
    imported type names cannot be gathered, the check raises an exception
    where the claim promises the diagnostic. *)
Theorem validateInnerFieldType_unknown (defs : list TypeDef) (def : TypeDef)
    (field : FieldDefinition) :
  let N := n_value (innermost (f_type field)) in
  (alternating (f_type field) = true →
   ∀ imported, gatherImportedTypes defs = Ok imported →
   let available :=
     map JsStr BUILTIN_SCALAR_TYPES ++ map JsStr (gatherLocalTypes defs) ++ imported in
   (JsStr N ∈ available → validateInnerFieldType defs def field = Ok []) ∧
   (JsStr N ∉ available →
    ∃ d, validateInnerFieldType defs def field = Ok [d] ∧
         loc d = f_loc field ∧
         entity d = JsStr (n_value (def_name def)) ∧
         mentions (message d) ("Unknown type '" +:+ N +:+ "'") ∧
         (∀ S, typeSuggestion N = Some S →
               message d =
                 "Field '" +:+ n_value (f_name field) +:+ "': " +:+
                 "Unknown type '" +:+ N +:+ "'." +:+
                 " Did you mean '" +:+ S +:+ "'?" ∧
               mentions (message d) ("Did you mean '" +:+ S +:+ "'?")) ∧
         (typeSuggestion N = None →
            message d =
              "Field '" +:+ n_value (f_name field) +:+ "': " +:+
              "Unknown type '" +:+ N +:+ "'." ∧
            (¬ has_char "?" (n_value (f_name field)) → ¬ has_char "?" N →
             ∀ S, ¬ mentions (message d) ("Did you mean '" +:+ S +:+ "'?"))))) ∧
  (alternating (f_type field) = false →
   validateInnerFieldType defs def field = Throw (TypeError "value")) ∧
  (alternating (f_type field) = true →
   ∀ e, gatherImportedTypes defs = Throw e →
        validateInnerFieldType defs def field = Throw e) ∧
  typeSuggestion "address" = Some "Bytes" ∧
  typeSuggestion "adress" = None.
Proof.
  intros N. unfold validateInnerFieldType. split_and!; [| | |done..].
  - intros Halt imported Himported. cbv zeta.
    rewrite (unwrapType_alternating_named _ Halt), Himported.
    simpl name_value. simpl mbind. fold N. split.
    + intros Hin. by rewrite bool_decide_eq_true_2.
    + intros Hnotin. rewrite bool_decide_eq_false_2 by done.
      eexists. split; [done|]. simpl loc. simpl entity. simpl message.
      split_and!; [done..| | |].
      * exists ("Field '" +:+ n_value (f_name field) +:+ "': "),
               ("." +:+ match typeSuggestion N with
                        | Some suggestion => " Did you mean '" +:+ suggestion +:+ "'?"
                        | None => ""
                        end).
        by rewrite !string_app_assoc.
      * intros S ->. split; [done|].
        exists ("Field '" +:+ n_value (f_name field) +:+ "': " +:+
                "Unknown type '" +:+ N +:+ "'. "), "".
        by rewrite string_app_nil_r, !string_app_assoc.
      * intros ->. split; [by rewrite string_app_nil_r|].
        intros Hfield HN S Hmentions.
        apply (mentions_has_char "?") in Hmentions.
        -- rewrite !has_char_app in Hmentions.
           destruct Hmentions as [H|[H|[H|[H|[H|[H|H]]]]]]; try done;
             unfold has_char in H; simpl in H; intuition discriminate.
        -- rewrite !has_char_app. right. right. unfold has_char. simpl. auto.
  - intros Halt.
    destruct (unwrapType (f_type field)) as [name| |] eqn:Hunwrap; [|done..].
    by destruct (unwrapType_not_alternating _ name Halt).
  - intros Halt e He. by rewrite (unwrapType_alternating_named _ Halt), He.
Qed.

Lemma validateInnerFieldType_unknown_witness :
  let owner := Sample.field "owner" (NonNullType (ListType (NonNullType (Sample.named "address")))) [] in
  let payer := Sample.field "payer" (ListType (NonNullType (Sample.named "adress"))) [] in
  let pool := Sample.field "pool" (NonNullType (Sample.named "Pair")) [] in
  let nested := Sample.field "payers" (NonNullType (ListType (ListType (Sample.named "adress")))) [] in
  let def := Sample.entity "Account" [Sample.id; owner; payer; pool; nested] in
  let imports (types : Value) :=
    Sample.object "_Schema_" []
      [ Sample.directive "import"
          [ Sample.argument "types" types;
            Sample.argument "from" (ObjectValue [(Sample.name "name", StringValue "dex")]) ] ] in
  let schema :=
    imports (ListValue [ ObjectValue [ (Sample.name "name", StringValue "Pool");
                                       (Sample.name "as", StringValue "Pair") ] ]) in
  let broken := imports (StringValue "Pool") in
  (∃ d, validateInnerFieldType [schema; def] def owner = Ok [d] ∧
        mentions (message d) "Unknown type 'address'" ∧
        mentions (message d) "Did you mean 'Bytes'?") ∧
  (∃ d, validateInnerFieldType [schema; def] def payer = Ok [d] ∧
        mentions (message d) "Unknown type 'adress'" ∧
        ∀ S, ¬ mentions (message d) ("Did you mean '" +:+ S +:+ "'?")) ∧
  validateInnerFieldType [schema; def] def pool = Ok [] ∧
  validateInnerFieldType [schema; def] def nested = Throw (TypeError "value") ∧
  validateInnerFieldType [broken; def] def payer = Throw (TypeError "value").
Proof.
  intros owner payer pool nested def imports schema broken.
  assert (gatherImportedTypes [schema; def] = Ok [JsStr "Pair"]) as Himported
    by reflexivity.
  split_and!.
  - destruct (validateInnerFieldType_unknown [schema; def] def owner) as (Hgood & _).
    destruct (Hgood eq_refl _ Himported) as (_ & Hunknown).
    destruct Hunknown as (d & Hd & _ & _ & Hname & Hsome & _).
    { apply (bool_decide_eq_false _). reflexivity. }
    exists d. split_and!; [done..|]. by apply (Hsome "Bytes").
  - destruct (validateInnerFieldType_unknown [schema; def] def payer) as (Hgood & _).
    destruct (Hgood eq_refl _ Himported) as (_ & Hunknown).
    destruct Hunknown as (d & Hd & _ & _ & Hname & _ & Hnone).
    { apply (bool_decide_eq_false _). reflexivity. }
    exists d. split_and!; [done..|].
    apply Hnone; [reflexivity|..];
      unfold has_char; simpl; intuition discriminate.
  - destruct (validateInnerFieldType_unknown [schema; def] def pool) as (Hgood & _).
    destruct (Hgood eq_refl _ Himported) as (Hknown & _).
    apply Hknown. apply (bool_decide_eq_true _). reflexivity.
  - destruct (validateInnerFieldType_unknown [schema; def] def nested) as (_ & Hnested & _).
    apply Hnested. reflexivity.
  - destruct (validateInnerFieldType_unknown [broken; def] def payer) as (_ & _ & Hthrows & _).
    apply Hthrows; reflexivity.
Defined.

(** * Further properties of the validator *)

(** ** Type unwrapping, beyond alternating types *)

(** X1: [unwrapType] returns a named type exactly on the type expressions
    in which no wrapper sits directly inside a wrapper of its own kind; on
    every other one it stops at a List or NonNull node. *)
Theorem unwrapType_named_iff (t : GType) :
  (∃ name, unwrapType t = NamedType name) ↔ alternating t = true.
Proof.
  split.
  - intros [name Hname]. destruct (alternating t) eqn:Halt; [done|].
    by destruct (unwrapType_not_alternating t name Halt).
  - intros Halt. exists (innermost t). by apply unwrapType_alternating_named.
Qed.

(** X2: on a field whose type is not alternating, the check of the inner
    type raises a TypeError whatever the schema is, and so does the lookup
    of the entity a field points to. *)
Theorem not_alternating_field_throws (defs : list TypeDef) (def : TypeDef)
    (field : FieldDefinition) :
  alternating (f_type field) = false →
  validateInnerFieldType defs def field = Throw (TypeError "value") ∧
  fieldTargetEntity defs field = Throw (TypeError "value").
Proof.
  intros Halt.
  unfold validateInnerFieldType, fieldTargetEntity, fieldTargetEntityName.
  destruct (unwrapType (f_type field)) as [name| |] eqn:Hunwrap; [|done..].
  by destruct (unwrapType_not_alternating _ name Halt).
Qed.

Lemma not_alternating_field_throws_witness :
  let field :=
    Sample.field "matrix" (NonNullType (ListType (ListType (Sample.named "Int")))) [] in
  let def := Sample.entity "Grid" [Sample.id; field] in
  validateInnerFieldType [def] def field = Throw (TypeError "value") ∧
  fieldTargetEntity [def] field = Throw (TypeError "value").
Proof.
  intros field def. apply (not_alternating_field_throws [def] def field). reflexivity.
Defined.

(** ** The list shape check, on every type *)

(** X3: [validateListFieldType] on any field.  It gives no diagnostic
    exactly when the type is not a list or is a list whose element is
    wrapped in NonNull; it raises exactly when the type is a list of a
    list; and it never gives more than one diagnostic. *)
Theorem validateListFieldType_total (def : TypeDef) (field : FieldDefinition) :
  (validateListFieldType def field = Ok [] ↔
   ∀ elem, f_type field = ListType elem → kind elem = KNonNullType) ∧
  (throws (validateListFieldType def field) ↔
   ∃ elem, f_type field = ListType (ListType elem)) ∧
  (∀ ds, validateListFieldType def field = Ok ds → List.length ds ≤ 1).
Proof.
  unfold validateListFieldType, throws.
  destruct (f_type field) as [name|[name|elem|elem]|inner]; simpl.
  - split_and!.
    + split; [by intros _ elem [=]|done].
    + split; [by intros [e [=]]|by intros [elem [=]]].
    + intros ds [= <-]. simpl. lia.
  - split_and!.
    + split; [by intros [=]|]. intros H. by specialize (H _ eq_refl).
    + split; [by intros [e [=]]|by intros [elem [=]]].
    + intros ds [= <-]. simpl. lia.
  - split_and!.
    + split; [by intros [=]|]. intros H. by specialize (H _ eq_refl).
    + split; [intros _; by exists elem|intros _; by eexists].
    + by intros ds [=].
  - split_and!.
    + split; [by intros _ e [= <-]|done].
    + split; [by intros [e [=]]|by intros [e [=]]].
    + intros ds [= <-]. simpl. lia.
  - split_and!.
    + split; [by intros _ elem [=]|done].
    + split; [by intros [e [=]]|by intros [elem [=]]].
    + intros ds [= <-]. simpl. lia.
Qed.

(** ** Suggestions *)

(** X4: whatever the type name, a suggestion is one of the builtin scalar
    types, and a suggestion is never given for a builtin scalar type; so
    following a suggestion leads to a name with no further suggestion. *)
Theorem typeSuggestion_builtin (typeName suggestion : string) :
  typeSuggestion typeName = Some suggestion →
  In suggestion BUILTIN_SCALAR_TYPES ∧
  typeSuggestion suggestion = None ∧
  ¬ In typeName BUILTIN_SCALAR_TYPES.
Proof.
  intros Hs.
  assert (In suggestion (map (fun '(_, s) => s) TYPE_SUGGESTIONS)) as Hin.
  { unfold typeSuggestion in Hs.
    destruct (List.filter _ TYPE_SUGGESTIONS) as [|[p s] rest] eqn:Hfilter; [done|].
    injection Hs as <-.
    assert (In (p, s) (List.filter
                         (fun '(pattern, _) =>
                            match pattern with
                            | PString p => seq p typeName
                            | PRegExp re => regexp_match re typeName
                            end) TYPE_SUGGESTIONS)) as Hps
      by (rewrite Hfilter; by left).
    apply filter_In in Hps as [Hps _].
    apply in_map_iff. by exists (p, s). }
  split_and!.
  - simpl in Hin. simpl. intuition.
  - simpl in Hin. intuition; subst suggestion; reflexivity.
  - simpl. intros Hbuiltin. intuition; subst typeName; discriminate.
Qed.

Lemma typeSuggestion_builtin_witness :
  In "BigInt" BUILTIN_SCALAR_TYPES ∧
  typeSuggestion "BigInt" = None ∧
  ¬ In "uint32" BUILTIN_SCALAR_TYPES.
Proof. apply (typeSuggestion_builtin "uint32" "BigInt"). reflexivity. Defined.

(** ** The type names of a schema *)

(** X5: the local type names are the names of the object, enum and
    interface type definitions of the schema, each as often as it is
    defined and in the order of the definitions; nothing else of a
    definition (its directives, its fields, the reserved name) matters. *)
Theorem gatherLocalTypes_spec (defs : list TypeDef) (name : string) :
  (In name (gatherLocalTypes defs) ↔
   ∃ def, In def defs ∧ n_value (def_name def) = name ∧
          (def_kind def = ObjectTypeDefinition ∨
           def_kind def = EnumTypeDefinition ∨
           def_kind def = InterfaceTypeDefinition)) ∧
  (∀ more, gatherLocalTypes (defs ++ more) = gatherLocalTypes defs ++ gatherLocalTypes more) ∧
  List.length (gatherLocalTypes defs) ≤ List.length defs.
Proof.
  unfold gatherLocalTypes. split_and!.
  - rewrite in_map_iff. split.
    + intros (def & Hname & Hin). apply filter_In in Hin as [Hin Hkind].
      exists def. split_and!; [done..|].
      apply orb_true_iff in Hkind as [Hkind|Hkind];
        [apply orb_true_iff in Hkind as [Hkind|Hkind]|];
        apply bool_decide_eq_true in Hkind; auto.
    + intros (def & Hin & Hname & Hkind). exists def. split; [done|].
      apply filter_In. split; [done|].
      destruct Hkind as [-> | [-> | ->]]; reflexivity.
  - intros more. by rewrite List.filter_app, map_app.
  - rewrite length_map. apply filter_length_le.
Qed.

Lemma entityTypeByName_local (defs : list TypeDef) (name : string) (T : TypeDef) :
  entityTypeByName defs name = Some T → In name (gatherLocalTypes defs).
Proof.
  intros HT. apply entityTypeByName_Some in HT as (Hin & Hkind & _ & Hname).
  unfold gatherLocalTypes. apply in_map_iff. exists T. split; [done|].
  apply filter_In. split; [done|]. destruct Hkind as [-> | ->]; reflexivity.
Qed.

(** X6: a name that resolves to an entity is a local type name, so a
    field whose type unwraps to it gets no unknown-type diagnostic as soon
    as the imported names can be gathered. *)
Theorem entity_field_type_known (defs : list TypeDef) (def T : TypeDef)
    (field : FieldDefinition) (name : Name) (imported : list JsVal) :
  unwrapType (f_type field) = NamedType name →
  entityTypeByName defs (n_value name) = Some T →
  gatherImportedTypes defs = Ok imported →
  In (n_value name) (gatherLocalTypes defs) ∧
  validateInnerFieldType defs def field = Ok [].
Proof.
  intros Hunwrap HT Himported.
  assert (In (n_value name) (gatherLocalTypes defs)) as Hlocal
    by by apply entityTypeByName_local with T.
  split; [done|].
  unfold validateInnerFieldType. rewrite Hunwrap, Himported. simpl.
  rewrite bool_decide_eq_true_2; [done|].
  apply list_elem_of_In.
  do 7 right. apply in_app_iff. left. by apply in_map.
Qed.

Lemma entity_field_type_known_witness :
  let field := Sample.field "owner" (NonNullType (Sample.named "Owner")) [] in
  let token := Sample.entity "Token" [Sample.id; field] in
  let owner := Sample.entity "Owner" [Sample.id] in
  In "Owner" (gatherLocalTypes [token; owner]) ∧
  validateInnerFieldType [token; owner] token field = Ok [].
Proof.
  intros field token owner.
  apply (entity_field_type_known [token; owner] token owner field (Sample.name "Owner") []);
    reflexivity.
Defined.

(** ** The imported type names *)

Lemma mapR_Ok_Forall2 {A B} (f : A → result B) (xs : list A) (ys : list B) :
  mapR f xs = Ok ys ↔ Forall2 (fun x y => f x = Ok y) xs ys.
Proof.
  revert ys. induction xs as [|x xs IH]; intros ys; simpl.
  - split; [intros [= <-]; constructor|by inversion 1].
  - destruct (f x) as [y|e] eqn:Hx; simpl.
    + destruct (mapR f xs) as [ys'|e] eqn:Hxs; simpl.
      * split.
        -- intros [= <-]. constructor; [done|]. by apply IH.
        -- inversion 1 as [|? y' ? ys'' Hy Hys]; subst.
           apply IH in Hys. congruence.
      * split; [done|]. inversion 1 as [|? y' ? ys'' Hy Hys]; subst.
        apply IH in Hys. congruence.
    + split; [done|]. inversion 1; congruence.
Qed.

Lemma mapR_Ok_In {A B} (f : A → result B) (xs : list A) (ys : list B) (y : B) :
  mapR f xs = Ok ys → In y ys → ∃ x, In x xs ∧ f x = Ok y.
Proof.
  rewrite mapR_Ok_Forall2. induction 1 as [|x y' xs ys Hx Hxs IH]; [done|].
  intros [<-|Hin].
  - exists x. split; [by left|done].
  - destruct (IH Hin) as (x' & Hin' & Hx'). exists x'. split; [by right|done].
Qed.

Lemma mapR_Ok_all {A B} (f : A → result B) (xs : list A) :
  (∀ x, In x xs → ∃ y, f x = Ok y) → ∃ ys, mapR f xs = Ok ys.
Proof.
  induction xs as [|x xs IH]; intros Hall; simpl; [by eexists|].
  destruct (Hall x) as [y ->]; [by left|].
  destruct IH as [ys ->]; [intros x' Hx'; apply Hall; by right|].
  by eexists.
Qed.

Lemma fold_left_app_flat_map {A B} (g : A → list B) (xs : list A) (init : list B) :
  fold_left (fun acc x => acc ++ g x) xs init = init ++ flat_map g xs.
Proof.
  revert init. induction xs as [|x xs IH]; intros init; simpl.
  - by rewrite app_nil_r.
  - by rewrite IH, <- app_assoc.
Qed.

Lemma importedTypeName_Ok (type : Value) : ∃ v, importedTypeName type = Ok v.
Proof.
  destruct type; simpl; try by eexists.
  destruct (List.find _ fields) as [field|] eqn:Hfind; simpl; [|by eexists].
  apply find_some in Hfind as [Hin Hfield].
  apply andb_true_iff in Hfield as [Hname _].
  destruct (List.find (fun field : Name * Value => seq (n_value field.1) "as") fields)
    as [field'|] eqn:Hfind'; [by eexists|].
  by rewrite (find_none _ _ Hfind' _ Hin) in Hname.
Qed.

(** X7: when [gatherImportedTypes] returns, every name in its result is
    truthy (never [undefined], never the empty string) and is what one
    element of a list-valued [types] argument of an [@import] directive on
    an object type definition named [_Schema_] imports; nothing else of the
    schema contributes a name. *)
Theorem gatherImportedTypes_origin (defs : list TypeDef) (imported : list JsVal)
    (v : JsVal) :
  gatherImportedTypes defs = Ok imported →
  In v imported →
  truthy v = true ∧
  ∃ def directive argument values type,
    In def defs ∧ def_kind def = ObjectTypeDefinition ∧
    n_value (def_name def) = RESERVED_TYPE ∧
    In directive (def_directives def) ∧ n_value (dir_name directive) = "import" ∧
    In argument (dir_arguments directive) ∧ n_value (a_name argument) = "types" ∧
    a_value argument = ListValue values ∧
    In type values ∧ importedTypeName type = Ok v.
Proof.
  unfold gatherImportedTypes. intros Hgather Hv.
  destruct (mapR _ _) as [per_def|e] eqn:Hper_def; [|done].
  simpl in Hgather. injection Hgather as <-.
  rewrite fold_left_app_flat_map in Hv. simpl in Hv.
  apply in_flat_map in Hv as (types_args & Hargs & Hv).
  rewrite fold_left_app_flat_map in Hv. simpl in Hv.
  apply in_flat_map in Hv as (types_arg & Harg & Hv).
  apply filter_In in Hv as [Hv Htruthy]. split; [done|].
  destruct (mapR_Ok_In _ _ _ _ Hper_def Hargs) as (def & Hdef & Hinner).
  apply filter_In in Hdef as [Hdef Hreserved].
  apply andb_true_iff in Hreserved as [Hreserved _].
  apply andb_true_iff in Hreserved as [Hkind Hname].
  apply bool_decide_eq_true in Hkind. apply seq_true in Hname.
  destruct (mapR_Ok_In _ _ _ _ Hinner Harg) as (arg & Harg_in & Hvalues).
  apply in_map_iff in Harg_in as (directive & Hfind & Hdirective).
  apply filter_In in Hdirective as [Hdirective Himport].
  apply andb_true_iff in Himport as [Himport _]. apply seq_true in Himport.
  destruct arg as [argument|]; [|done].
  apply find_some in Hfind as [Hargument Htypes].
  apply andb_true_iff in Htypes as [Htypes Hlist]. apply seq_true in Htypes.
  destruct (a_value argument) as [| | | | | |values|] eqn:Hvalue; try done.
  simpl in Hvalues.
  destruct (mapR_Ok_In _ _ _ _ Hvalues Hv) as (type & Htype & Hname_of).
  exists def, directive, argument, values, type. by split_and!.
Qed.

Lemma gatherImportedTypes_origin_witness :
  let directive :=
    Sample.directive "import"
      [ Sample.argument "types"
          (ListValue [ StringValue "Token";
                       ObjectValue [ (Sample.name "name", StringValue "Pool");
                                     (Sample.name "as", StringValue "Pair") ];
                       IntValue "3" ]);
        Sample.argument "from" (ObjectValue [(Sample.name "name", StringValue "dex")]) ] in
  let def := Sample.object "_Schema_" [] [directive] in
  gatherImportedTypes [def] = Ok [JsStr "Token"; JsStr "Pair"] ∧
  truthy (JsStr "Pair") = true ∧
  ∃ def' directive' argument values type,
    In def' [def] ∧ def_kind def' = ObjectTypeDefinition ∧
    n_value (def_name def') = RESERVED_TYPE ∧
    In directive' (def_directives def') ∧ n_value (dir_name directive') = "import" ∧
    In argument (dir_arguments directive') ∧ n_value (a_name argument) = "types" ∧
    a_value argument = ListValue values ∧
    In type values ∧ importedTypeName type = Ok (JsStr "Pair").
Proof.
  intros directive def. split; [reflexivity|].
  apply (gatherImportedTypes_origin [def] [JsStr "Token"; JsStr "Pair"] (JsStr "Pair")).
  - reflexivity.
  - right. left. reflexivity.
Defined.

(** X8: [gatherImportedTypes] returns whenever every [@import] directive
    with a [types] argument on an object type definition named [_Schema_]
    has a [types] argument whose value is a list; whatever the elements of
    the lists are, it does not raise. *)
Theorem gatherImportedTypes_returns (defs : list TypeDef) :
  (∀ def directive types,
     In def defs → def_kind def = ObjectTypeDefinition →
     n_value (def_name def) = RESERVED_TYPE →
     In directive (def_directives def) → n_value (dir_name directive) = "import" →
     In types (dir_arguments directive) → n_value (a_name types) = "types" →
     ∃ argument values,
       In argument (dir_arguments directive) ∧ n_value (a_name argument) = "types" ∧
       a_value argument = ListValue values) →
  ∃ imported, gatherImportedTypes defs = Ok imported.
Proof.
  intros Hshape. unfold gatherImportedTypes.
  destruct (mapR_Ok_all
    (fun def =>
       mapR (fun arg : option Argument =>
               match arg with
               | Some arg => values_map (a_value arg) importedTypeName
               | None => Throw (TypeError "value")
               end)
            (map (fun imp =>
                    List.find (fun argument =>
                                 seq (n_value (a_name argument)) "types" &&
                                 isListValue (a_value argument))
                              (dir_arguments imp))
                 (List.filter importWithTypes (def_directives def))))
    (List.filter
       (fun def =>
          bool_decide (def_kind def = ObjectTypeDefinition) &&
          seq (n_value (def_name def)) RESERVED_TYPE &&
          found (List.find importWithTypes (def_directives def)))
       defs)) as [per_def Hper_def].
  - intros def Hdef. apply filter_In in Hdef as [Hdef Hreserved].
    apply andb_true_iff in Hreserved as [Hreserved _].
    apply andb_true_iff in Hreserved as [Hkind Hname].
    apply bool_decide_eq_true in Hkind. apply seq_true in Hname.
    apply mapR_Ok_all. intros arg Harg.
    apply in_map_iff in Harg as (directive & Hfind & Hdirective).
    apply filter_In in Hdirective as [Hdirective Himport].
    apply andb_true_iff in Himport as [Himport Htypes]. apply seq_true in Himport.
    destruct (List.find _ (dir_arguments directive)) as [types|] eqn:Htypes_find
      in Htypes; [|done].
    apply find_some in Htypes_find as [Htypes_in Htypes_name].
    apply seq_true in Htypes_name.
    destruct (Hshape def directive types) as (argument & values & Hin & Hn & Hv);
      [done..|].
    destruct arg as [arg|].
    + apply find_some in Hfind as [_ Hlist].
      apply andb_true_iff in Hlist as [_ Hlist].
      destruct (a_value arg); try done. simpl.
      apply mapR_Ok_all. intros type _. apply importedTypeName_Ok.
    + apply find_none with (x := argument) in Hfind; [|done].
      apply seq_true in Hn. by rewrite Hn, Hv in Hfind.
  - rewrite Hper_def. by eexists.
Qed.

Lemma gatherImportedTypes_returns_witness :
  ∃ imported,
    gatherImportedTypes
      [ Sample.object "_Schema_" []
          [ Sample.directive "import"
              [ Sample.argument "types" (ListValue [NullValue; StringValue "Token"]) ] ] ]
    = Ok imported.
Proof.
  apply gatherImportedTypes_returns.
  intros def directive types [<-|[]] _ _ [<-|[]] _ [<-|[]] _.
  eexists _, _. split_and!; [by left|reflexivity..].
Defined.

(** ** [@derivedFrom]: what is accepted, and how much is reported *)

(** X9: a [@derivedFrom(field: "f")] directive is accepted without a
    diagnostic when the field's type resolves to an entity whose first
    field named f has a type that is the name of the type the directive is
    in, wrapped in any alternating List and NonNull wrappers (not only the
    three forms the diagnostic names), and that name resolves to an
    entity. *)
Theorem validateDerivedFromDirective_accepts (defs : list TypeDef) (def T E : TypeDef)
    (field derivedFromField : FieldDefinition) (directive : Directive)
    (argument : Argument) (f : string) (target : Name) :
  dir_arguments directive = [argument] →
  n_value (a_name argument) = "field" →
  a_value argument = StringValue f →
  unwrapType (f_type field) = NamedType target →
  entityTypeByName defs (n_value target) = Some T →
  List.find (fun other => seq (n_value (f_name other)) f) (def_fields T)
    = Some derivedFromField →
  alternating (f_type derivedFromField) = true →
  n_value (innermost (f_type derivedFromField)) = n_value (def_name def) →
  entityTypeByName defs (n_value (def_name def)) = Some E →
  validateDerivedFromDirective defs def field directive = Ok [].
Proof.
  intros Hargs Hname Hvalue Htarget HT Hfind Halt Hback HE.
  apply seq_true in Hname.
  unfold validateDerivedFromDirective, fieldTargetEntity, fieldTargetEntityName.
  rewrite Hargs, Hname, Hvalue, Htarget. simpl. rewrite HT.
  rewrite find_field_by_name, Hfind.
  rewrite (unwrapType_alternating_named _ Halt). simpl. rewrite Hback, HE.
  apply entityTypeByName_Some in HE as (_ & _ & _ & HE).
  apply seq_true in HE. by rewrite HE.
Qed.

Lemma validateDerivedFromDirective_accepts_witness :
  let directive :=
    Sample.directive "derivedFrom" [Sample.argument "field" (StringValue "owner")] in
  let field := Sample.field "tokens" (ListType (NonNullType (Sample.named "Token"))) [directive] in
  let def := Sample.entity "Owner" [Sample.id; field] in
  let owner := Sample.field "owner" (ListType (Sample.named "Owner")) [] in
  let token := Sample.entity "Token" [Sample.id; owner] in
  validateDerivedFromDirective [def; token] def field directive = Ok [].
Proof.
  intros directive field def owner token.
  apply (validateDerivedFromDirective_accepts [def; token] def token def field owner
           directive (Sample.argument "field" (StringValue "owner")) "owner"
           (Sample.name "Token")); reflexivity.
Defined.

(** X10: whenever the validation of a [@derivedFrom] directive returns, it
    returns at most one diagnostic, and that one is located at the
    directive and has the name of the type the directive is in as its
    entity. *)
Theorem validateDerivedFromDirective_at_most_one (defs : list TypeDef) (def : TypeDef)
    (field : FieldDefinition) (directive : Directive) (ds : list Diagnostic) :
  validateDerivedFromDirective defs def field directive = Ok ds →
  List.length ds ≤ 1 ∧
  Forall (fun d => loc d = dir_loc directive ∧
                   entity d = JsStr (n_value (def_name def))) ds.
Proof.
  unfold validateDerivedFromDirective.
  assert (∀ d, loc d = dir_loc directive → entity d = JsStr (n_value (def_name def)) →
               List.length [d] ≤ 1 ∧
               Forall (fun d => loc d = dir_loc directive ∧
                                entity d = JsStr (n_value (def_name def))) [d]) as Hone.
  { intros d Hloc Hentity. split; [simpl; lia|]. by repeat constructor. }
  assert (List.length (@nil Diagnostic) ≤ 1 ∧
          Forall (fun d => loc d = dir_loc directive ∧
                           entity d = JsStr (n_value (def_name def))) []) as Hnone.
  { split; [simpl; lia|constructor]. }
  destruct (dir_arguments directive) as [|argument [|? ?]];
    [intros [= <-]; by apply Hone| |intros [= <-]; by apply Hone].
  destruct (negb (seq _ _)); [intros [= <-]; by apply Hone|].
  destruct (negb (isStringValue _)); [intros [= <-]; by apply Hone|].
  destruct (fieldTargetEntity defs field) as [[targetEntity|]|e]; simpl;
    [|by intros [= <-]|done].
  destruct (List.find _ (def_fields targetEntity)) as [derivedFromField|];
    [|intros [= <-]; by apply Hone].
  destruct (name_value _) as [backrefName|e]; simpl; [|done].
  destruct (entityTypeByName defs backrefName) as [backRefEntity|];
    [destruct (negb _)|]; intros [= <-]; by (apply Hone || apply Hnone).
Qed.

Lemma validateDerivedFromDirective_at_most_one_witness :
  let directive := Sample.directive "derivedFrom" [] in
  let field := Sample.field "tokens" (Sample.named "Token") [directive] in
  let def := Sample.entity "Owner" [Sample.id; field] in
  List.length
    [ {| loc := Sample.at0;
         entity := JsStr "Owner";
         message :=
           "Field 'tokens': @derivedFrom directive must have a 'field' argument" |} ] ≤ 1 ∧
  Forall (fun d => loc d = dir_loc directive ∧ entity d = JsStr (n_value (def_name def)))
    [ {| loc := Sample.at0;
         entity := JsStr "Owner";
         message :=
           "Field 'tokens': @derivedFrom directive must have a 'field' argument" |} ].
Proof.
  intros directive field def.
  apply (validateDerivedFromDirective_at_most_one [def] def field directive).
  reflexivity.
Defined.

(** ** The shape of an [@import] directive *)

Lemma name_in_two (n a b : string) :
  bool_decide (n ∈ [a; b]) = true ↔ n = a ∨ n = b.
Proof.
  rewrite bool_decide_eq_true, !elem_of_cons, elem_of_nil. tauto.
Qed.

Lemma validateImportDirectiveType_nil (def : TypeDef) (directive : Directive)
    (type : Value) :
  validateImportDirectiveType def directive type = [] ↔
  (∃ s, type = StringValue s) ∨
  (∃ fields, type = ObjectValue fields ∧ List.length fields = 2 ∧
             ∀ field : Name * Value, In field fields →
               (n_value field.1 = "name" ∨ n_value field.1 = "as") ∧
               isStringValue field.2 = true).
Proof.
  destruct type as [s|s|s|s|b| |values|fields]; simpl;
    try (split; [done|]; intros [[? [=]]|(? & [=] & _)]; fail).
  - split; [intros _; left; by eexists|done].
  - destruct fields as [|a [|b [|c fields]]]; simpl;
      try (split; [done|]; intros [[? [=]]|(? & [= <-] & [=] & _)]; fail).
    destruct (bool_decide (n_value a.1 ∈ ["name"; "as"])) eqn:Ha;
      destruct (isStringValue a.2) eqn:Ha';
      destruct (bool_decide (n_value b.1 ∈ ["name"; "as"])) eqn:Hb;
      destruct (isStringValue b.2) eqn:Hb'; simpl.
    1: { split; [intros _|done]. right. exists [a; b]. split_and!; [done..|].
         apply name_in_two in Ha, Hb. by intros field [<-|[<-|[]]]. }
    all: split; [done|];
      intros [[? [=]]|(? & [= <-] & _ & Hall)];
      destruct (Hall a) as [Hna Hva]; [by left|];
      destruct (Hall b) as [Hnb Hvb]; [by right; left|];
      apply name_in_two in Hna, Hnb; congruence.
Qed.

Lemma validateImportDirectiveType_length (def : TypeDef) (directive : Directive)
    (type : Value) :
  List.length (validateImportDirectiveType def directive type) ≤ 2.
Proof.
  destruct type as [s|s|s|s|b| |vs|fields]; simpl; try lia.
  destruct fields as [|a [|b [|c fields]]]; simpl; try lia.
  repeat (destruct (negb _); simpl); lia.
Qed.

(** X11: one element of the [types] list of an [@import] directive gets no
    diagnostic exactly when it is a string, or an object with exactly two
    fields, each named [name] or [as] and each with a string value (two
    fields of the same name pass as well); no element gets more than two
    diagnostics. *)
Theorem validateImportDirectiveType_accepts (def : TypeDef) (directive : Directive)
    (type : Value) :
  (validateImportDirectiveType def directive type = [] ↔
   (∃ s, type = StringValue s) ∨
   (∃ fields, type = ObjectValue fields ∧ List.length fields = 2 ∧
              ∀ field : Name * Value, In field fields →
                (n_value field.1 = "name" ∨ n_value field.1 = "as") ∧
                isStringValue field.2 = true)) ∧
  List.length (validateImportDirectiveType def directive type) ≤ 2.
Proof.
  split; [apply validateImportDirectiveType_nil|apply validateImportDirectiveType_length].
Qed.

(** X12: the [from] argument of an [@import] directive gets no diagnostic
    exactly when its value is an object with one field, named [name] or
    [id], with a string value; it never gets more than one diagnostic. *)
Theorem validateImportDirectiveArgumentFrom_accepts (def : TypeDef)
    (directive : Directive) (argument : Argument) :
  (validateImportDirectiveArgumentFrom def directive argument = [] ↔
   ∃ name s, a_value argument = ObjectValue [(name, StringValue s)] ∧
             (n_value name = "name" ∨ n_value name = "id")) ∧
  List.length (validateImportDirectiveArgumentFrom def directive argument) ≤ 1.
Proof.
  unfold validateImportDirectiveArgumentFrom.
  destruct (a_value argument) as [s|s|s|s|b| |values|fields]; simpl;
    try (split; [|lia]; split; [done|]; intros (? & ? & [=] & _); fail).
  destruct fields as [|[name value] [|c fields]]; simpl;
    try (split; [|lia]; split; [done|]; intros (? & ? & [=] & _); fail).
  destruct (bool_decide (n_value name ∈ ["name"; "id"])) eqn:Hname; simpl.
  - destruct value; simpl; (split; [|lia]);
      try (split; [done|]; intros (? & ? & [=] & _); fail).
    split; [intros _|done]. apply name_in_two in Hname. by eexists _, _.
  - split; [|lia]. split; [done|]. intros (? & ? & [= <- _] & Hn).
    apply name_in_two in Hn. congruence.
Qed.

(** ** How the diagnostics of the parts are put together *)

Lemma reduce_nil {A B} (f : B → A → result B) (init : B) :
  reduce f [] init = Ok init.
Proof. done. Qed.

Lemma reduce_ext {A B} (f g : B → A → result B) (xs : list A) (init : B) :
  (∀ b x, f b x = g b x) → reduce f xs init = reduce g xs init.
Proof.
  intros Hfg. revert init. induction xs as [|x xs IH]; intros init; [done|].
  rewrite !reduce_cons, Hfg. destruct (g init x); simpl; [apply IH|done].
Qed.

Lemma reduce_concat_Ok {A B} (f : A → result (list B)) (xs : list A)
    (init ds : list B) :
  reduce (fun errors x => e ← f x; Ok (errors ++ e)) xs init = Ok ds ↔
  ∃ ls, Forall2 (fun x l => f x = Ok l) xs ls ∧ ds = init ++ List.concat ls.
Proof.
  revert init. induction xs as [|x xs IH]; intros init.
  - rewrite reduce_nil. split.
    + intros [= <-]. exists []. split; [constructor|by rewrite app_nil_r].
    + intros (ls & Hls & ->). inversion Hls. by rewrite app_nil_r.
  - rewrite reduce_cons. destruct (f x) as [l|e] eqn:Hx; simpl.
    + rewrite IH. split.
      * intros (ls & Hls & ->). exists (l :: ls). split; [by constructor|].
        simpl. by rewrite app_assoc.
      * intros (ls & Hls & ->). inversion Hls as [|? l' ? ls' Hl Hls']; subst.
        exists ls'. split; [done|]. simpl. rewrite app_assoc. congruence.
    + split; [done|]. intros (ls & Hls & _). inversion Hls; congruence.
Qed.

Lemma Forall2_Ok_unique {A B} (f : A → result B) (xs : list A) (ls ls' : list B) :
  Forall2 (fun x l => f x = Ok l) xs ls →
  Forall2 (fun x l => f x = Ok l) xs ls' →
  ls = ls'.
Proof.
  intros Hls. revert ls'.
  induction Hls as [|x l xs ls Hl Hls IH]; intros ls' Hls';
    inversion Hls' as [|? l' ? ls'' Hl' Hls'']; subst; [done|].
  f_equal; [congruence|by apply IH].
Qed.

Lemma reduce_concat_all {A B} (f : A → result (list B)) (g : A → list B)
    (xs : list A) (init : list B) :
  (∀ x, In x xs → f x = Ok (g x)) →
  reduce (fun errors x => e ← f x; Ok (errors ++ e)) xs init = Ok (init ++ flat_map g xs).
Proof.
  revert init. induction xs as [|x xs IH]; intros init Hall.
  - by rewrite reduce_nil, app_nil_r.
  - rewrite reduce_cons, Hall by by left. simpl.
    rewrite IH by (intros y Hy; apply Hall; by right). by rewrite app_assoc.
Qed.

(** X13: an object type definition named [_Schema_] all of whose
    directives are named [import] is validated without an exception; its
    diagnostics are, directive by directive in source order, those of the
    [types] argument followed by those of the [from] argument, and after all
    of them the one for a type that has fields. *)
Theorem reserved_type_diagnostics (defs : list TypeDef) (def : TypeDef) :
  def_kind def = ObjectTypeDefinition →
  n_value (def_name def) = RESERVED_TYPE →
  (∀ directive, In directive (def_directives def) →
                n_value (dir_name directive) = "import") →
  validateTypeDefinition defs def =
    Ok (flat_map (fun directive => validateImportDirectiveTypes def directive ++
                                   validateImportDirectiveFrom def directive)
                 (def_directives def)
        ++ validateTypeHasNoFields def).
Proof.
  intros Hkind Hname Himport. apply seq_true in Hname.
  unfold validateTypeDefinition. rewrite Hkind, Hname.
  unfold validateSubgraphSchemaDirectives.
  rewrite (reduce_concat_all _
             (fun directive => validateImportDirectiveTypes def directive ++
                               validateImportDirectiveFrom def directive)); [done|].
  intros directive Hin. unfold validateImportDirective, validateImportDirectiveName.
  specialize (Himport _ Hin). apply seq_true in Himport. by rewrite Himport.
Qed.

Lemma reserved_type_diagnostics_witness :
  let directive :=
    Sample.directive "import"
      [ Sample.argument "types" (ListValue [StringValue "Token"; IntValue "3"]) ] in
  let def := Sample.object "_Schema_" [Sample.id] [directive] in
  validateTypeDefinition [def] def =
    Ok [ {| loc := Sample.at0; entity := JsStr "_Schema_"; message := import_shape_message |};
         {| loc := Sample.at0; entity := JsStr "_Schema_";
            message := "@import argument 'from' must be specified" |};
         {| loc := Sample.at0; entity := JsStr "_Schema_";
            message := "_Schema_ type is not allowed any fields by convention" |} ].
Proof.
  intros directive def.
  apply (reserved_type_diagnostics [def] def); [reflexivity..|].
  intros d [<-|[]]. reflexivity.
Defined.

Lemma validateEntityFields_step (defs : list TypeDef) (def : TypeDef)
    (errors : list Diagnostic) (field : FieldDefinition) :
  (e1 ← validateEntityFieldType defs def field;
   let e2 := validateEntityFieldArguments defs def field in
   e3 ← validateEntityFieldDirectives defs def field;
   Ok (((errors ++ e1) ++ e2) ++ e3)) =
  (e ← (e1 ← validateEntityFieldType defs def field;
        e3 ← validateEntityFieldDirectives defs def field;
        Ok (e1 ++ validateEntityFieldArguments defs def field ++ e3));
   Ok (errors ++ e)).
Proof.
  destruct (validateEntityFieldType defs def field) as [e1|e]; simpl; [|done].
  destruct (validateEntityFieldDirectives defs def field) as [e3|e]; simpl; [|done].
  by rewrite <- !app_assoc.
Qed.

(** X14: the diagnostics of the fields of an entity type.  The check
    returns exactly when the type check and the directive check of every
    field return, and its result is then, field by field in source order,
    the diagnostics of the type, of the arguments and of the directives of
    the field. *)
Theorem validateEntityFields_order (defs : list TypeDef) (def : TypeDef)
    (ds : list Diagnostic) :
  validateEntityFields defs def = Ok ds ↔
  ∃ per_field,
    Forall2 (fun field l =>
               ∃ e1 e3,
                 validateEntityFieldType defs def field = Ok e1 ∧
                 validateEntityFieldDirectives defs def field = Ok e3 ∧
                 l = e1 ++ validateEntityFieldArguments defs def field ++ e3)
            (def_fields def) per_field ∧
    ds = List.concat per_field.
Proof.
  unfold validateEntityFields.
  rewrite (reduce_ext _ _ _ _ (validateEntityFields_step defs def)).
  rewrite reduce_concat_Ok. simpl.
  split; intros (ls & Hls & ->); exists ls; (split; [|done]);
    eapply Forall2_impl; [exact Hls| |exact Hls|]; simpl; intros field l.
  - destruct (validateEntityFieldType defs def field) as [e1|e]; simpl; [|done].
    destruct (validateEntityFieldDirectives defs def field) as [e3|e]; simpl; [|done].
    intros [= <-]. by eexists _, _.
  - by intros (e1 & e3 & -> & -> & ->).
Qed.

(** X15: the diagnostics of a schema.  [validateSchema] returns exactly
    when the validation of every definition returns and the imported type
    names can be gathered; its result is then the diagnostics of the
    definitions in source order, followed by the naming collisions among
    the local and then the imported type names. *)
Theorem validateSchema_order (defs : list TypeDef) (ds : list Diagnostic) :
  validateSchema defs = Ok ds ↔
  ∃ per_def imported,
    Forall2 (fun def l => validateTypeDefinition defs def = Ok l) defs per_def ∧
    gatherImportedTypes defs = Ok imported ∧
    ds = List.concat per_def ++
         validateNamingCollisionsInTypes (map JsStr (gatherLocalTypes defs) ++ imported).
Proof.
  unfold validateSchema, validateNamingCollisions, validateTypeDefinitions.
  destruct (reduce _ defs []) as [e1|e] eqn:Hdefs; simpl.
  - apply reduce_concat_Ok in Hdefs as (ls & Hls & ->). simpl.
    destruct (gatherImportedTypes defs) as [imported|e]; simpl.
    + split.
      * intros [= <-]. by exists ls, imported.
      * intros (ls' & imported' & Hls' & [= <-] & ->).
        by rewrite (Forall2_Ok_unique _ _ _ _ Hls' Hls).
    + split; [done|]. by intros (? & ? & _ & [=] & _).
  - split; [done|]. intros (ls & imported & Hls & _ & _).
    assert (reduce (fun errors def => e ← validateTypeDefinition defs def; Ok (errors ++ e))
                   defs [] = Ok ([] ++ List.concat ls)) as Hok
      by (apply reduce_concat_Ok; by exists ls).
    unfold validateTypeDefinitions in Hdefs. congruence.
Qed.

(** ** Definitions that get no diagnostic *)

Lemma flat_map_nothing {A B} (xs : list A) : flat_map (fun _ => @nil B) xs = [].
Proof. induction xs as [|x xs IH]; [done|exact IH]. Qed.

Lemma validateEntityFieldDirectives_none (defs : list TypeDef) (def : TypeDef)
    (field : FieldDefinition) :
  (∀ directive, In directive (f_directives field) →
                n_value (dir_name directive) ≠ "derivedFrom") →
  validateEntityFieldDirectives defs def field = Ok [].
Proof.
  intros Hnone. unfold validateEntityFieldDirectives.
  rewrite (reduce_concat_all _ (fun _ => [])).
  - by rewrite flat_map_nothing.
  - intros directive Hin. unfold validateEntityFieldDirective.
    specialize (Hnone _ Hin). apply seq_false in Hnone. by rewrite Hnone.
Qed.

Lemma validateEntityFields_nothing (defs : list TypeDef) (def : TypeDef) :
  (∀ field, In field (def_fields def) →
     validateEntityFieldType defs def field = Ok [] ∧
     validateEntityFieldArguments defs def field = [] ∧
     validateEntityFieldDirectives defs def field = Ok []) →
  validateEntityFields defs def = Ok [].
Proof.
  intros Hall. unfold validateEntityFields.
  rewrite (reduce_ext _ _ _ _ (validateEntityFields_step defs def)).
  rewrite (reduce_concat_all _ (fun _ => [])); [by rewrite flat_map_nothing|].
  intros field Hin. destruct (Hall field Hin) as (-> & -> & ->). done.
Qed.

(** X16: an object type definition that is not the reserved type gets no
    diagnostic at all when it has an [@entity] directive and no [@import]
    directive, its first field named [id] has the type ID!, and every
    field has no arguments, no [@derivedFrom] directive, no list with an
    element that is not wrapped in NonNull at the top of its type, and a
    type that unwraps to a builtin scalar, a local type name or an imported
    type name. *)
Theorem valid_entity_no_diagnostics (defs : list TypeDef) (def : TypeDef)
    (imported : list JsVal) :
  def_kind def = ObjectTypeDefinition →
  n_value (def_name def) ≠ RESERVED_TYPE →
  gatherImportedTypes defs = Ok imported →
  (∃ directive, In directive (def_directives def) ∧
                n_value (dir_name directive) = "entity") →
  (∀ directive, In directive (def_directives def) →
                n_value (dir_name directive) ≠ "import") →
  (∃ idField name,
     List.find (fun field => seq (n_value (f_name field)) "id") (def_fields def)
       = Some idField ∧
     f_type idField = NonNullType (NamedType name) ∧ n_value name = "ID") →
  (∀ field, In field (def_fields def) →
     (∀ elem, f_type field = ListType elem → kind elem = KNonNullType) ∧
     (∃ name, unwrapType (f_type field) = NamedType name ∧
              (In (n_value name) BUILTIN_SCALAR_TYPES ∨
               In (n_value name) (gatherLocalTypes defs) ∨
               In (JsStr (n_value name)) imported)) ∧
     f_arguments field = [] ∧
     (∀ directive, In directive (f_directives field) →
                   n_value (dir_name directive) ≠ "derivedFrom")) →
  validateTypeDefinition defs def = Ok [].
Proof.
  intros Hkind Hname Himported (entity & Hentity & Hentity_name) Hnoimport
    (idField & name & Hfind & Htype & HID) Hfields.
  unfold validateTypeDefinition. rewrite Hkind.
  apply seq_false in Hname. rewrite Hname.
  assert (validateEntityDirective def = []) as ->.
  { unfold validateEntityDirective.
    rewrite (found_find_In _ _ entity); [done..|]. by apply seq_true. }
  assert (validateEntityID def = []) as ->.
  { unfold validateEntityID. rewrite Hfind, Htype.
    apply seq_true in HID. by rewrite HID. }
  assert (validateNoImportDirective def = []) as ->.
  { unfold validateNoImportDirective. rewrite find_all_false; [done|].
    intros directive Hin. apply seq_false. by apply Hnoimport. }
  assert (validateEntityFields defs def = Ok []) as ->; [|done].
  apply validateEntityFields_nothing. intros field Hin.
  destruct (Hfields field Hin) as (Hshape & (n & Hunwrap & Hknown) & Hargs & Hdirs).
  split_and!.
  - unfold validateEntityFieldType.
    assert (validateListFieldType def field = Ok []) as ->.
    { unfold validateListFieldType.
      destruct (f_type field) as [?|elem|?]; simpl; [done| |done].
      rewrite (Hshape elem eq_refl). done. }
    simpl. unfold validateInnerFieldType. rewrite Hunwrap, Himported. simpl.
    rewrite bool_decide_eq_true_2; [done|].
    apply list_elem_of_In. change (In (JsStr (n_value n))
      (map JsStr BUILTIN_SCALAR_TYPES ++ map JsStr (gatherLocalTypes defs) ++ imported)).
    rewrite !in_app_iff. destruct Hknown as [H|[H|H]];
      [left|right; left|right; right]; try done; by apply in_map.
  - unfold validateEntityFieldArguments. by rewrite Hargs.
  - by apply validateEntityFieldDirectives_none.
Qed.

Lemma valid_entity_no_diagnostics_witness :
  let token :=
    Sample.entity "Token"
      [ Sample.id;
        Sample.field "symbol" (NonNullType (Sample.named "String")) [];
        Sample.field "holders" (NonNullType (ListType (NonNullType (Sample.named "Account")))) [];
        Sample.field "pool" (Sample.named "Pool") [] ] in
  let account := Sample.entity "Account" [Sample.id] in
  let schema :=
    Sample.object "_Schema_" []
      [ Sample.directive "import"
          [ Sample.argument "types" (ListValue [StringValue "Pool"]);
            Sample.argument "from" (ObjectValue [(Sample.name "name", StringValue "dex")]) ] ] in
  validateTypeDefinition [schema; token; account] token = Ok [].
Proof.
  intros token account schema.
  apply (valid_entity_no_diagnostics [schema; token; account] token [JsStr "Pool"]).
  - reflexivity.
  - discriminate.
  - reflexivity.
  - eexists. split; [by left|reflexivity].
  - intros directive [<-|[]]. discriminate.
  - eexists _, _. split_and!; reflexivity.
  - intros field [<-|[<-|[<-|[<-|[]]]]]; (split_and!;
      [by intros elem [=]
      |eexists; split; [reflexivity|simpl; auto 12]
      |reflexivity
      |by intros directive []]).
Defined.

(** ** Definitions that are not object type definitions *)

Lemma filter_nothing {A} (p : A → bool) (xs : list A) :
  (∀ x, In x xs → p x = false) → List.filter p xs = [].
Proof.
  induction xs as [|x xs IH]; intros Hall; [done|]. simpl.
  rewrite (Hall x) by by left. apply IH. intros y Hy. apply Hall. by right.
Qed.

(** X17: in a schema without object type definitions nothing but the
    names is checked: whatever the interfaces, enums, extensions and other
    definitions contain, [validateSchema] returns the naming collisions
    among the local type names and nothing else. *)
Theorem schema_without_object_types (defs : list TypeDef) :
  (∀ def, In def defs → def_kind def ≠ ObjectTypeDefinition) →
  validateSchema defs =
    Ok (validateNamingCollisionsInTypes (map JsStr (gatherLocalTypes defs))).
Proof.
  intros Hnone. unfold validateSchema, validateTypeDefinitions.
  rewrite (reduce_concat_all _ (fun _ => [])), flat_map_nothing.
  - unfold gatherImportedTypes. rewrite filter_nothing.
    + simpl. unfold validateNamingCollisions. by rewrite app_nil_r.
    + intros def Hin. rewrite bool_decide_eq_false_2; [done|]. by apply Hnone.
  - intros def Hin. unfold validateTypeDefinition.
    specialize (Hnone def Hin). by destruct (def_kind def).
Qed.

Lemma schema_without_object_types_witness :
  let node :=
    {| def_kind := InterfaceTypeDefinition; def_loc := Sample.at0;
       def_name := Sample.name "Node";
       def_fields := [Sample.field "id" (ListType (ListType (Sample.named "adress"))) []];
       def_directives := [Sample.directive "import" []] |} in
  let more :=
    {| def_kind := ObjectTypeExtension; def_loc := Sample.at0;
       def_name := Sample.name "Node"; def_fields := []; def_directives := [] |} in
  validateSchema [node; more; node] =
    Ok (validateNamingCollisionsInTypes [JsStr "Node"; JsStr "Node"]).
Proof.
  intros node more.
  apply (schema_without_object_types [node; more; node]).
  intros def [<-|[<-|[<-|[]]]]; discriminate.
Defined.

(** ** Naming collisions and distinct names *)

Lemma reported_count (name : JsVal) (ds : list Diagnostic) :
  reported name ds = count_occ JsVal_eq_dec (map entity ds) name.
Proof.
  unfold reported. induction ds as [|d ds IH]; [done|]. simpl.
  destruct (JsVal_eq_dec (entity d) name) as [Heq|Hne].
  - rewrite bool_decide_eq_true_2 by done. simpl. by rewrite IH.
  - by rewrite bool_decide_eq_false_2.
Qed.

(** X18: the collision check gives no diagnostic exactly when the type
    names are pairwise distinct, and it never gives two diagnostics for
    the same name. *)
Theorem validateNamingCollisionsInTypes_NoDup (types : list JsVal) :
  (validateNamingCollisionsInTypes types = [] ↔ List.NoDup types) ∧
  List.NoDup (map entity (validateNamingCollisionsInTypes types)).
Proof.
  unfold validateNamingCollisionsInTypes.
  destruct (collisions_inv_fold types [] _ collisions_inv_init) as [_ _ Herr _].
  simpl in Herr. split; [split|].
  - intros Hnone. rewrite Hnone in Herr.
    apply (NoDup_count_occ JsVal_eq_dec). intros name.
    specialize (Herr name). unfold occurrences in Herr. simpl in Herr.
    case_decide; [done|lia].
  - intros Hdistinct.
    destruct (errors _) as [|d ds]; [done|].
    specialize (Herr (entity d)). unfold reported in Herr. simpl in Herr.
    rewrite bool_decide_eq_true_2 in Herr by done. simpl in Herr.
    rewrite (NoDup_count_occ JsVal_eq_dec) in Hdistinct.
    specialize (Hdistinct (entity d)). unfold occurrences in Herr.
    case_decide; [lia|done].
  - apply (NoDup_count_occ JsVal_eq_dec). intros name.
    rewrite <- reported_count, Herr. case_decide; lia.
Qed.

(** ** The exceptions of the validator *)

Lemma reduce_concat_Throw {A B} (f : A → result (list B)) (xs : list A)
    (init : list B) (e : JsError) :
  reduce (fun errors x => e ← f x; Ok (errors ++ e)) xs init = Throw e →
  ∃ x, In x xs ∧ f x = Throw e.
Proof.
  revert init. induction xs as [|x xs IH]; intros init; [done|].
  rewrite reduce_cons. destruct (f x) as [l|e'] eqn:Hx; simpl.
  - intros Hxs. destruct (IH _ Hxs) as (y & Hy & Hfy). exists y. split; [by right|done].
  - intros [= <-]. exists x. split; [by left|done].
Qed.

Lemma mapR_Throw {A B} (f : A → result B) (xs : list A) (e : JsError) :
  mapR f xs = Throw e → ∃ x, In x xs ∧ f x = Throw e.
Proof.
  induction xs as [|x xs IH]; [done|]. simpl.
  destruct (f x) as [y|e'] eqn:Hx; simpl.
  - destruct (mapR f xs) as [ys|e'']; simpl; [done|].
    intros [= <-]. destruct IH as (x' & Hin & Hx'); [done|].
    exists x'. split; [by right|done].
  - intros [= <-]. exists x. split; [by left|done].
Qed.

Lemma gatherImportedTypes_throws_only (defs : list TypeDef) (e : JsError) :
  gatherImportedTypes defs = Throw e → e = TypeError "value".
Proof.
  unfold gatherImportedTypes.
  destruct (mapR _ _) as [per_def|e'] eqn:Hper_def; [done|].
  simpl. intros [= <-].
  apply mapR_Throw in Hper_def as (def & _ & Hdef).
  apply mapR_Throw in Hdef as (arg & Harg & Hthrow).
  destruct arg as [arg|]; [|congruence].
  apply in_map_iff in Harg as (directive & Hfind & _).
  apply find_some in Hfind as [_ Hlist].
  apply andb_true_iff in Hlist as [_ Hlist].
  destruct (a_value arg) as [| | | | | |values|]; try done. simpl in Hthrow.
  apply mapR_Throw in Hthrow as (type & _ & Htype).
  destruct (importedTypeName_Ok type) as [v Hv]. congruence.
Qed.

Lemma validateEntityFieldType_throws_only (defs : list TypeDef) (def : TypeDef)
    (field : FieldDefinition) (e : JsError) :
  validateEntityFieldType defs def field = Throw e → e = TypeError "value".
Proof.
  unfold validateEntityFieldType.
  destruct (validateListFieldType def field) as [e1|e'] eqn:Hlist; simpl.
  - unfold validateInnerFieldType.
    destruct (unwrapType (f_type field)); simpl; [|congruence..].
    destruct (gatherImportedTypes defs) as [imported|e'] eqn:Himported; simpl.
    + by case_bool_decide.
    + intros [= <-]. by apply gatherImportedTypes_throws_only with defs.
  - intros [= <-]. unfold validateListFieldType in Hlist.
    destruct (f_type field) as [?|[?|?|?]|?]; simpl in Hlist; congruence.
Qed.

Lemma validateDerivedFromDirective_throws_only (defs : list TypeDef) (def : TypeDef)
    (field : FieldDefinition) (directive : Directive) (e : JsError) :
  validateDerivedFromDirective defs def field directive = Throw e → e = TypeError "value".
Proof.
  unfold validateDerivedFromDirective, fieldTargetEntity, fieldTargetEntityName.
  destruct (dir_arguments directive) as [|argument [|? ?]]; [done| |done].
  destruct (negb (seq _ _)); [done|].
  destruct (negb (isStringValue _)); [done|].
  destruct (unwrapType (f_type field)); simpl; [|congruence..].
  destruct (entityTypeByName defs _) as [targetEntity|]; [|done].
  destruct (List.find _ (def_fields targetEntity)) as [derivedFromField|]; [|done].
  destruct (unwrapType (f_type derivedFromField)); simpl; [|congruence..].
  destruct (entityTypeByName defs _) as [backRefEntity|]; [destruct (negb _)|]; done.
Qed.

(** X19: the validation of parsed definitions raises two exceptions only.
    A ReferenceError for [def] comes from an object type definition named
    [_Schema_] with a directive that is not named [import]; every other
    exception is the TypeError of reading [value] of [undefined]. *)
Theorem validateSchema_exceptions (defs : list TypeDef) (e : JsError) :
  validateSchema defs = Throw e →
  (e = ReferenceError "def" ∧
   ∃ def directive,
     In def defs ∧ def_kind def = ObjectTypeDefinition ∧
     n_value (def_name def) = RESERVED_TYPE ∧
     In directive (def_directives def) ∧ n_value (dir_name directive) ≠ "import") ∨
  e = TypeError "value".
Proof.
  unfold validateSchema.
  destruct (validateTypeDefinitions defs) as [e1|e'] eqn:Hdefs; simpl.
  - destruct (gatherImportedTypes defs) as [imported|e'] eqn:Himported; [done|].
    simpl. intros [= <-]. right. by apply gatherImportedTypes_throws_only with defs.
  - intros [= <-]. unfold validateTypeDefinitions in Hdefs.
    apply reduce_concat_Throw in Hdefs as (def & Hdef & Hthrow).
    unfold validateTypeDefinition in Hthrow.
    destruct (def_kind def) eqn:Hkind; try done.
    destruct (seq (n_value (def_name def)) RESERVED_TYPE) eqn:Hname.
    + left. apply seq_true in Hname.
      destruct (validateSubgraphSchemaDirectives def) as [?|e''] eqn:Hdirs; [done|].
      simpl in Hthrow. injection Hthrow as ->.
      unfold validateSubgraphSchemaDirectives in Hdirs.
      apply reduce_concat_Throw in Hdirs as (directive & Hdirective & Himport).
      split; [by apply validateImportDirective_throws_only in Himport|].
      exists def, directive. split_and!; [done..|].
      unfold validateImportDirective, validateImportDirectiveName in Himport.
      destruct (seq (n_value (dir_name directive)) "import") eqn:Hn; [done|].
      by apply seq_false.
    + right.
      destruct (validateEntityFields defs def) as [?|e''] eqn:Hfields; [done|].
      simpl in Hthrow. injection Hthrow as ->.
      unfold validateEntityFields in Hfields.
      rewrite (reduce_ext _ _ _ _ (validateEntityFields_step defs def)) in Hfields.
      apply reduce_concat_Throw in Hfields as (field & _ & Hfield).
      destruct (validateEntityFieldType defs def field) as [t1|et] eqn:Htype; simpl in Hfield.
      * destruct (validateEntityFieldDirectives defs def field) as [t3|ed] eqn:Hdirs;
          [done|]. simpl in Hfield. injection Hfield as ->.
        unfold validateEntityFieldDirectives in Hdirs.
        apply reduce_concat_Throw in Hdirs as (directive & _ & Hdirective).
        unfold validateEntityFieldDirective in Hdirective.
        destruct (seq _ "derivedFrom"); [|done].
        by apply validateDerivedFromDirective_throws_only in Hdirective.
      * injection Hfield as ->. by apply validateEntityFieldType_throws_only in Htype.
Qed.

Lemma validateSchema_exceptions_witness :
  let stray := Sample.directive "entity" [] in
  let def := Sample.object "_Schema_" [] [stray] in
  (ReferenceError "def" = ReferenceError "def" ∧
   ∃ def' directive,
     In def' [def] ∧ def_kind def' = ObjectTypeDefinition ∧
     n_value (def_name def') = RESERVED_TYPE ∧
     In directive (def_directives def') ∧ n_value (dir_name directive) ≠ "import") ∨
  ReferenceError "def" = TypeError "value".
Proof.
  intros stray def.
  apply (validateSchema_exceptions [def] (ReferenceError "def")). reflexivity.
Defined.

(** ** The [types] list, element by element *)

Lemma flat_map_nil_iff {A B} (g : A → list B) (xs : list A) :
  flat_map g xs = [] ↔ ∀ x, In x xs → g x = [].
Proof.
  induction xs as [|x xs IH]; simpl; [by split|].
  rewrite app_nil, IH. split.
  - intros [Hx Hxs] y [<-|Hy]; [done|by apply Hxs].
  - intros Hall. split; [apply Hall; by left|]. intros y Hy. apply Hall. by right.
Qed.

(** X20: when the value of the [types] argument is a list, its diagnostics
    are those of its elements in source order, at most two for each
    element; there is none exactly when every element is a string or an
    object with exactly two fields, each named [name] or [as] and each with
    a string value. *)
Theorem validateImportDirectiveArgumentTypes_elements (def : TypeDef)
    (directive : Directive) (argument : Argument) (values : list Value) :
  a_value argument = ListValue values →
  validateImportDirectiveArgumentTypes def directive argument =
    flat_map (validateImportDirectiveType def directive) values ∧
  List.length (validateImportDirectiveArgumentTypes def directive argument)
    ≤ 2 * List.length values ∧
  (validateImportDirectiveArgumentTypes def directive argument = [] ↔
   ∀ type, In type values →
     (∃ s, type = StringValue s) ∨
     (∃ fields, type = ObjectValue fields ∧ List.length fields = 2 ∧
                ∀ field : Name * Value, In field fields →
                  (n_value field.1 = "name" ∨ n_value field.1 = "as") ∧
                  isStringValue field.2 = true)).
Proof.
  intros Hvalue. unfold validateImportDirectiveArgumentTypes. rewrite Hvalue.
  rewrite fold_left_app_flat_map. simpl. split_and!; [done| |].
  - clear Hvalue. induction values as [|type values IH]; simpl; [lia|].
    rewrite List.length_app.
    pose proof (validateImportDirectiveType_length def directive type). lia.
  - rewrite flat_map_nil_iff. split.
    + intros Hall type Hin. by apply (validateImportDirectiveType_nil def directive), Hall.
    + intros Hall type Hin. by apply validateImportDirectiveType_nil, Hall.
Qed.

Lemma validateImportDirectiveArgumentTypes_elements_witness :
  let directive := Sample.directive "import" [] in
  let def := Sample.object "_Schema_" [] [directive] in
  let alias := [ (Sample.name "name", StringValue "Pool"); (Sample.name "as", StringValue "Pair") ] in
  let number := [ (Sample.name "name", StringValue "Pool"); (Sample.name "as", IntValue "1") ] in
  let argument :=
    Sample.argument "types"
      (ListValue [StringValue "Token"; IntValue "3"; ObjectValue alias; ObjectValue number]) in
  let good :=
    Sample.argument "types" (ListValue [StringValue "Token"; ObjectValue alias]) in
  validateImportDirectiveArgumentTypes def directive argument =
    [ {| loc := Sample.at0; entity := JsStr "_Schema_"; message := import_shape_message |};
      {| loc := Sample.at0; entity := JsStr "_Schema_";
         message := "@import fields [name, as] must be strings" |} ] ∧
  List.length (validateImportDirectiveArgumentTypes def directive argument) ≤ 8 ∧
  validateImportDirectiveArgumentTypes def directive good = [].
Proof.
  intros directive def alias number argument good. split_and!.
  - destruct (validateImportDirectiveArgumentTypes_elements def directive argument
                [StringValue "Token"; IntValue "3"; ObjectValue alias; ObjectValue number]
                eq_refl) as (Helements & _ & _).
    exact Helements.
  - destruct (validateImportDirectiveArgumentTypes_elements def directive argument
                [StringValue "Token"; IntValue "3"; ObjectValue alias; ObjectValue number]
                eq_refl) as (_ & Hbound & _).
    exact Hbound.
  - destruct (validateImportDirectiveArgumentTypes_elements def directive good
                [StringValue "Token"; ObjectValue alias] eq_refl) as (_ & _ & Hnone).
    apply Hnone. intros type [<-|[<-|[]]].
    + left. by eexists.
    + right. exists alias. split_and!; [reflexivity..|].
      intros field [<-|[<-|[]]]; simpl; auto.
Defined.



(** ** Entities by name *)

(** X22: a name resolves to no entity exactly when the schema has no
    interface or object type definition with that name and an [@entity]
    directive. *)
Theorem entityTypeByName_None_iff (defs : list TypeDef) (name : string) :
  entityTypeByName defs name = None ↔
  ∀ def directive,
    In def defs →
    def_kind def = InterfaceTypeDefinition ∨ def_kind def = ObjectTypeDefinition →
    In directive (def_directives def) → n_value (dir_name directive) = "entity" →
    n_value (def_name def) ≠ name.
Proof.
  unfold entityTypeByName. split.
  - intros Hnone def directive Hdef Hkind Hdirective Hentity.
    apply seq_false. apply (find_none _ _ Hnone).
    apply filter_In. split.
    + apply filter_In. split; [done|]. by destruct Hkind as [-> | ->].
    + apply found_find_In with directive; [done|]. by apply seq_true.
  - intros Hall. apply find_all_false. intros def Hdef.
    apply filter_In in Hdef as [Hdef Hentity].
    apply filter_In in Hdef as [Hdef Hkind].
    destruct (List.find _ (def_directives def)) as [directive|] eqn:Hfind; [|done].
    apply find_some in Hfind as [Hdirective Hname]. apply seq_true in Hname.
    apply seq_false. apply (Hall def directive); [done| |done..].
    apply orb_true_iff in Hkind as [Hkind|Hkind];
      apply bool_decide_eq_true in Hkind; auto.
Qed.

(** ** Suggestions for sized integer names *)

(** X23: the suggestions for the integer names with a width.  The
    unsigned names of 8, 16 and 24 bits and the signed names up to 32 bits
    get Int; the unsigned names of 32 bits get BigInt, as do all names of
    the listed widths from 40 to 256 bits. *)
Theorem typeSuggestion_sized (prefix width : string) :
  (In prefix ["u"; "uint"] → In width ["8"; "16"; "24"] →
   typeSuggestion (prefix +:+ width) = Some "Int") ∧
  (In prefix ["i"; "int"] → In width ["8"; "16"; "24"; "32"] →
   typeSuggestion (prefix +:+ width) = Some "Int") ∧
  (In prefix ["u"; "uint"] → typeSuggestion (prefix +:+ "32") = Some "BigInt") ∧
  (In prefix ["u"; "uint"; "i"; "int"] →
   In width ["40"; "48"; "56"; "64"; "72"; "80"; "88"; "96"; "104"; "112";
             "120"; "128"; "136"; "144"; "152"; "160"; "168"; "176"; "184";
             "192"; "200"; "208"; "216"; "224"; "232"; "240"; "248"; "256"] →
   typeSuggestion (prefix +:+ width) = Some "BigInt").
Proof.
  split_and!; intros Hprefix; [intros Hwidth..| |intros Hwidth];
    simpl in *;
    repeat (destruct Hprefix as [<-|Hprefix]; [|]); try done;
    try (repeat (destruct Hwidth as [<-|Hwidth]; [vm_compute; reflexivity|]); done).
  all: vm_compute; reflexivity.
Qed.

Lemma typeSuggestion_sized_witness :
  typeSuggestion "uint24" = Some "Int" ∧
  typeSuggestion "int32" = Some "Int" ∧
  typeSuggestion "uint32" = Some "BigInt" ∧
  typeSuggestion "i256" = Some "BigInt".
Proof.
  split_and!.
  - destruct (typeSuggestion_sized "uint" "24") as (H & _). apply H; simpl; auto.
  - destruct (typeSuggestion_sized "int" "32") as (_ & H & _). apply H; simpl; auto.
  - destruct (typeSuggestion_sized "uint" "") as (_ & _ & H & _). apply H; simpl; auto.
  - destruct (typeSuggestion_sized "i" "256") as (_ & _ & _ & H). apply H; simpl; auto 40.
Defined.
